(** * smartfuzz: the APDU fuzzer of [card_fuzzer.py]

    A shallow embedding of the class [SmartCardFuzzer] and of [main].
    The card reader (pyscard) and the opening of the log file are external:
    they are a record of operations over an abstract state.  Every method is
    a computation in a state-and-exception monad over a world made of that
    state, the messages logged and the consumer's output.  A generator is
    written with its [yield] as a callback, which keeps the interleaving of
    the nested generators of [fuzz] as Python runs it. *)

From Stdlib Require Import ZArith List String Bool Lia.
From Stdlib Require Import Sorted.
Import ListNotations.
Local Open Scope string_scope.
Local Open Scope list_scope.
Local Open Scope Z_scope.

(** ** Python values and exceptions *)

(** The exceptions that reach the fuzzer: those of the reader library
    ([CardConnectionException] stands for its transport errors), those
    the interpreter raises on a name or an attribute that is not bound,
    and [OSError] (with its subclasses FileNotFoundError, PermissionError
    and the like) for a log file that cannot be opened.
    All of them derive from Python's [Exception], so [except Exception]
    catches every one; [SWException] has a handler of its own.  Signals
    that are not exceptions of that family (KeyboardInterrupt, SystemExit)
    come from the operator, not from a transmission, and are left out. *)
Inductive exn : Type :=
| SWException (msg : string)
| CardRequestTimeoutException
| CardConnectionException (msg : string)
| AttributeError (name : string)
| NameError (name : string)
| TypeError (name : string)
| IndexError
| OSError (msg : string).

Inductive res (A : Type) : Type :=
| Ok (a : A)
| Raise (e : exn).
Arguments Ok {A} a.
Arguments Raise {A} e.

(** A yielded command: the tuple [(_class, instruction, p1, p2)]. *)
Definition command : Type := Z * Z * Z * Z.

(** The list [[_class, instruction, p1, p2]] that the tuple denotes. *)
Definition apdu_of (c : command) : list Z :=
  let '(_class, instruction, p1, p2) := c in [_class; instruction; p1; p2].

(** [range(n)] *)
Definition range (n : nat) : list Z := map Z.of_nat (seq 0 n).

(** [x in l] on a list of ints and on a list of pairs of ints. *)
Definition mem (x : Z) (l : list Z) : bool := existsb (Z.eqb x) l.

Definition pair_eqb (p q : Z * Z) : bool :=
  Z.eqb (fst p) (fst q) && Z.eqb (snd p) (snd q).

Definition mem_pair (p : Z * Z) (l : list (Z * Z)) : bool :=
  existsb (pair_eqb p) l.

(** ** The log file

    One constructor per message that the module writes with [logging]. *)
Inductive entry : Type :=
| Send (apdu : list Z)
| Returned (response : list Z) (sw1 sw2 : Z)
| CommandSucces
| PartialSucces
| CommandFailed
| GotSWException (e : exn)
| WentWrong (e : exn).

(** ** The card reader

    What is outside the process: the reader with its card, and the file
    system in which [logging.basicConfig] opens the log file.  [Reader] is
    the state of all of it. *)

Record CardTransceiver : Type := {
  Reader : Type;
  Service : Type;
  (* logging.basicConfig(filename=log_file, level=logging.DEBUG): the file
     is opened for appending at once, and an OSError is raised when it
     cannot be *)
  basicConfig : string -> Reader -> res unit * Reader;
  (* CardRequest(timeout, cardType=AnyCardType()).waitforcard() *)
  waitforcard : Z -> Reader -> res Service * Reader;
  (* cardservice.connection.connect() *)
  connect : Service -> Reader -> res unit * Reader;
  (* cardservice.connection.transmit(apdu) *)
  transmit : Service -> list Z -> Reader -> res (list Z * Z * Z) * Reader
}.

(** ** Status constants and tables of the class *)

Inductive Status : Type := SUCCES | FAILED | PARAM_FAIL.

Definition BAD_INSTRUCTIONS : list Z := [0x20; 0x24].
Definition SUCCESS_LIST_RESP : list Z := [0x90; 0x61; 0x67; 0x6c; 0x6a].
Definition SUCCESS_BAD_PARAM_RESP : list (Z * Z) := [(0x6a, 0x86)].
Definition SUCCESS_FAIL_RESP : list (Z * Z) := [(0x6a, 0x81)].
Definition UNSUPPORTED_RESP : list (Z * Z) := [(0x6E, 0x00)].

(** The names bound on an instance: the class body (private names mangled)
    and the two attributes set by [__init__]. *)
Definition attribute_names : list string :=
  [ "Status"; "BAD_INSTRUCTIONS"; "SUCCESS_LIST_RESP";
    "SUCCESS_BAD_PARAM_RESP"; "SUCCESS_FAIL_RESP"; "UNSUPPORTED_RESP";
    "__init__"; "_SmartCardFuzzer__get_card"; "_SmartCardFuzzer__send_apdu";
    "_SmartCardFuzzer__get_succes"; "_class_fuzzer"; "_instruction_fuzzer";
    "_param_fuzzer"; "fuzz"; "timeout"; "cardservice" ].

(** ** The monad *)

Record world (T : CardTransceiver) (Y : Type) : Type := World {
  reader : Reader T;      (* the reader, its card, the file system *)
  log : list entry;       (* the log file, newest entry first *)
  out : list Y            (* what the consumer received, newest first *)
}.
Arguments World {T Y} reader log out.
Arguments reader {T Y} w.
Arguments log {T Y} w.
Arguments out {T Y} w.

Definition M (T : CardTransceiver) (Y A : Type) : Type :=
  world T Y -> res A * world T Y.

Section Monad.
Context {T : CardTransceiver} {Y : Type}.

Definition ret {A} (a : A) : M T Y A := fun w => (Ok a, w).

Definition bind {A B} (m : M T Y A) (k : A -> M T Y B) : M T Y B :=
  fun w =>
    match m w with
    | (Ok a, w') => k a w'
    | (Raise e, w') => (Raise e, w')
    end.

Definition raise {A} (e : exn) : M T Y A := fun w => (Raise e, w).

(** [try: body  except ... as e: handler e] *)
Definition try_except {A} (body : M T Y A) (handler : exn -> M T Y A)
  : M T Y A :=
  fun w =>
    match body w with
    | (Ok a, w') => (Ok a, w')
    | (Raise e, w') => handler e w'
    end.

(** [logging.info] and [logging.warning]: the level is DEBUG, so every
    message is written. *)
Definition logging (e : entry) : M T Y unit :=
  fun w => (Ok tt, World (reader w) (e :: log w) (out w)).

(** A call into the reader. *)
Definition external {A} (op : Reader T -> res A * Reader T) : M T Y A :=
  fun w => let (r, rd) := op (reader w) in (r, World rd (log w) (out w)).

(** The consumer of the outermost generator: it keeps what it is given
    ([main] prints it). *)
Definition emit (y : Y) : M T Y unit :=
  fun w => (Ok tt, World (reader w) (log w) (y :: out w)).
End Monad.

Declare Scope py_scope.
Delimit Scope py_scope with py.
Notation "x <- m ;; k" := (bind m (fun x => k))
  (at level 61, m at next level, right associativity) : py_scope.
Notation "' pat <- m ;; k" := (bind m (fun x => match x with pat => k end))
  (at level 61, pat pattern, m at next level, right associativity) : py_scope.
Notation "m ;; k" := (bind m (fun _ => k))
  (at level 61, right associativity) : py_scope.
Local Open Scope py_scope.

Section Loops.
Context {T : CardTransceiver} {Y : Type}.

(** [for x in xs: body x]; a [continue] is a body that returns. *)
Fixpoint for_each (xs : list Z) (body : Z -> M T Y unit) : M T Y unit :=
  match xs with
  | [] => ret tt
  | x :: xs' => body x ;; for_each xs' body
  end.

(** [l[0]] *)
Definition first {A} (l : list A) : M T Y A :=
  match l with
  | x :: _ => ret x
  | [] => raise IndexError
  end.

(** Reading a local int variable by name. *)
Definition load_name (scope : list (string * Z)) (name : string) : M T Y Z :=
  match find (fun b => String.eqb (fst b) name) scope with
  | Some b => ret (snd b)
  | None => raise (NameError name)
  end.
End Loops.

(** ** The class [SmartCardFuzzer] *)

Record Self (T : CardTransceiver) : Type := Fuzzer {
  timeout : Z;
  cardservice : Service T
}.
Arguments Fuzzer {T} timeout cardservice.
Arguments timeout {T} s.
Arguments cardservice {T} s.

Section SmartCardFuzzer.
Context {T : CardTransceiver} {Y : Type}.
Local Abbreviation M' := (M T Y).

(** A generator of commands, given its consumer. *)
Definition generator : Type := (command -> M' unit) -> M' unit.

(** [__get_card]: [self.timeout] is the one attribute set when it runs. *)
Definition __get_card (timeout : Z) : M' (Service T) :=
  cardservice <- external (waitforcard T timeout) ;;
  external (connect T cardservice) ;;
  ret cardservice.

(** [__init__]: [logging.basicConfig] opens the log file, and raises when
    it cannot; it writes no message. *)
Definition __init__ (timeout : Z) (log_file : string) : M' (Self T) :=
  external (basicConfig T log_file) ;;
  cardservice <- __get_card timeout ;;
  ret (Fuzzer timeout cardservice).

Definition __send_apdu (self : Self T) (_class instruction p1 p2 : Z)
  : M' (list Z * Z * Z) :=
  let apdu := [_class; instruction; p1; p2] in
  logging (Send apdu) ;;
  '(response, sw1, sw2) <- external (transmit T (cardservice self) apdu) ;;
  logging (Returned response sw1 sw2) ;;
  ret (response, sw1, sw2).

Definition __get_succes (sw1 sw2 : Z) : M' Status :=
  if mem sw1 SUCCESS_LIST_RESP
     && negb (mem_pair (sw1, sw2) SUCCESS_FAIL_RESP)
     && negb (mem_pair (sw1, sw2) SUCCESS_BAD_PARAM_RESP)
  then logging CommandSucces ;; ret SUCCES
  else if mem_pair (sw1, sw2) SUCCESS_BAD_PARAM_RESP
  then logging PartialSucces ;; ret PARAM_FAIL
  else logging CommandFailed ;; ret FAILED.

Definition _class_fuzzer (self : Self T) (yield_ : Z -> M' unit) : M' unit :=
  for_each (range (0xFF + 1)) (fun _class =>
    default <- first UNSUPPORTED_RESP ;;
    sw <- try_except
            ('(response, sw1, sw2) <- __send_apdu self _class 0x00 0x00 0x00 ;;
             ret (sw1, sw2))
            (fun e =>
               match e with
               | SWException _ => logging (GotSWException e)
               | _ => logging (WentWrong e)
               end ;;
               ret default) ;;
    if negb (mem_pair sw UNSUPPORTED_RESP) then yield_ _class else ret tt).

Definition _param_fuzzer (self : Self T) (_class instruction : Z)
  : generator :=
  fun yield_ =>
    for_each (range (0xff + 1)) (fun p1 =>
      for_each (range (0xff + 1)) (fun p2 =>
        '(response, sw1, sw2) <- __send_apdu self _class instruction p1 p2 ;;
        succes <- __get_succes sw1 sw2 ;;
        match succes with
        | SUCCES =>
            (* the int names in scope; self, response, succes and the
               module's globals are the others *)
            let scope := [("_class", _class); ("instruction", instruction);
                          ("p1", p1); ("p2", p2);
                          ("sw1", sw1); ("sw2", sw2)] in
            ins <- load_name scope "ins" ;;
            yield_ (_class, ins, p1, p2)
        | _ => ret tt
        end)).

(** [getattr(self, name)] where a generator method of a class and an
    instruction is expected. *)
Definition getattr (self : Self T) (name : string)
  : M' (Z -> Z -> generator) :=
  if negb (existsb (String.eqb name) attribute_names)
  then raise (AttributeError name)
  else if String.eqb name "_param_fuzzer" then ret (_param_fuzzer self)
  else raise (TypeError name).

Definition _instruction_fuzzer (self : Self T) (_class : Z) : generator :=
  fun yield_ =>
    for_each (range (0xFF + 1)) (fun instruction =>
      if mem instruction BAD_INSTRUCTIONS then ret tt
      else
        '(respsonse, sw1, sw2) <-
          __send_apdu self _class instruction 0x00 0x00 ;;
        succes <- __get_succes sw1 sw2 ;;
        match succes with
        | SUCCES => yield_ (_class, instruction, 0x00, 0x00)
        | PARAM_FAIL =>
            param_fuzzer <- getattr self "param_fuzzer" ;;
            param_fuzzer _class instruction yield_
        | FAILED => ret tt
        end).

Definition fuzz (self : Self T) : generator :=
  fun yield_ =>
    _class_fuzzer self (fun valid_class =>
      _instruction_fuzzer self valid_class (fun valid => yield_ valid)).
End SmartCardFuzzer.

(** [main]: the default arguments of [SmartCardFuzzer()] are filled in;
    [print] is the consumer. *)
Definition main {T : CardTransceiver} : M T command unit :=
  smart_fuzzer <- __init__ 30 "smart_fuzzer.log" ;;
  fuzz smart_fuzzer (fun apdu => emit apdu).

(** The world a run starts in: an empty log, nothing printed. *)
Definition start {T : CardTransceiver} {Y : Type} (rd : Reader T) : world T Y :=
  World rd [] [].

(** The commands transmitted, oldest first: [__send_apdu] is the only caller
    of [transmit] and logs the command just before the call. *)
Fixpoint sends (l : list entry) : list (list Z) :=
  match l with
  | [] => []
  | Send apdu :: l' => sends l' ++ [apdu]
  | _ :: l' => sends l'
  end.

(** ** Observations on a run *)

(** The three-way classifier as the specification words it (4.1): the first
    rule that matches wins.  [SUCCESS_LIST_RESP] is its SuccessStatusBytes,
    [SUCCESS_BAD_PARAM_RESP] its ParamFailurePairs and [SUCCESS_FAIL_RESP]
    its HardFailurePairs. *)
Definition classify (sw1 sw2 : Z) : Status :=
  if mem sw1 SUCCESS_LIST_RESP
     && negb (mem_pair (sw1, sw2) SUCCESS_BAD_PARAM_RESP)
     && negb (mem_pair (sw1, sw2) SUCCESS_FAIL_RESP)
  then SUCCES
  else if mem_pair (sw1, sw2) SUCCESS_BAD_PARAM_RESP then PARAM_FAIL
  else FAILED.

(** The message [__get_succes] logs with each constant. *)
Definition verdict_entry (s : Status) : entry :=
  match s with
  | SUCCES => CommandSucces
  | PARAM_FAIL => PartialSucces
  | FAILED => CommandFailed
  end.

Definition verdict (e : entry) : option Status :=
  match e with
  | CommandSucces => Some SUCCES
  | PartialSucces => Some PARAM_FAIL
  | CommandFailed => Some FAILED
  | _ => None
  end.

(** The probes that were classified, newest first, each with its constant:
    a verdict in the log belongs to the command sent and answered just
    before it. *)
Fixpoint classified (l : list entry) : list (list Z * Status) :=
  match l with
  | [] => []
  | e :: l' =>
      match verdict e, l' with
      | Some s, Returned _ _ _ :: Send apdu :: _ => (apdu, s) :: classified l'
      | _, _ => classified l'
      end
  end.

Definition is_SUCCES (s : Status) : bool :=
  match s with SUCCES => true | _ => false end.

(** The commands of the probes classified [SUCCES], newest first. *)
Definition confirmed (l : list entry) : list (list Z) :=
  map fst (filter (fun p => is_SUCCES (snd p)) (classified l)).

(** The instruction byte of a transmitted command. *)
Definition instruction_of (apdu : list Z) : Z := nth 1 apdu 0.

Section ClassProbe.
Context {T : CardTransceiver}.
Variable self : Self T.

(** The status pair the class stage holds after probing class [c] with
    the reader in state [rd]. *)
Definition class_answer (c : Z) (rd : Reader T) : Z * Z :=
  match fst (transmit T (cardservice self) [c; 0; 0; 0] rd) with
  | Ok (_, sw1, sw2) => (sw1, sw2)
  | Raise _ => (0x6E, 0x00)
  end.

(** The reader after the class probes of [cs], in that order. *)
Definition reader_after (cs : list Z) (rd : Reader T) : Reader T :=
  fold_left
    (fun rd c => snd (transmit T (cardservice self) [c; 0; 0; 0] rd)) cs rd.

(** Class [c] is acknowledged when its probe comes [c]-th in a sweep
    that starts with the reader in state [rd]. *)
Definition acknowledged (rd : Reader T) (c : Z) : bool :=
  negb (pair_eqb (class_answer c (reader_after (range (Z.to_nat c)) rd))
                 (0x6E, 0x00)).
End ClassProbe.

(** ** Cards for the scenarios of the specification *)

(** A reader with no state whose card answers by [answer]; a card is
    always there, and the log file can be opened. *)
Definition card_of (answer : list Z -> res (list Z * Z * Z))
  : CardTransceiver :=
  {| Reader := unit;
     Service := unit;
     basicConfig := fun _ rd => (Ok tt, rd);
     waitforcard := fun _ rd => (Ok tt, rd);
     connect := fun _ rd => (Ok tt, rd);
     transmit := fun _ apdu rd => (answer apdu, rd) |}.

(** Scenario A: every class but 0x80 answers the unsupported marker, and
    of class 0x80 only instruction 0x00 answers (0x90, 0x00). *)
Definition scenario_A : CardTransceiver :=
  card_of (fun apdu =>
    match apdu with
    | [0x80; 0x00; _; _] => Ok ([], 0x90, 0x00)
    | [0x80; _; _; _] => Ok ([], 0x6D, 0x00)
    | _ => Ok ([], 0x6E, 0x00)
    end).

(** Scenario B: class 0x80 is recognised, instruction 0x10 answers
    (0x6A, 0x86), and of all parameters only (0x01, 0x02) answers
    (0x90, 0x00). *)
Definition scenario_B : CardTransceiver :=
  card_of (fun apdu =>
    match apdu with
    | [0x80; 0x10; 0x01; 0x02] => Ok ([], 0x90, 0x00)
    | [0x80; 0x10; _; _] => Ok ([], 0x6A, 0x86)
    | [0x80; _; _; _] => Ok ([], 0x6D, 0x00)
    | _ => Ok ([], 0x6E, 0x00)
    end).

(** Scenario D: class 0x80 is recognised, instruction 0x06 succeeds, and
    the transmission for instruction 0x05 raises a protocol error. *)
Definition scenario_D : CardTransceiver :=
  card_of (fun apdu =>
    match apdu with
    | [0x80; 0x05; _; _] => Raise (CardConnectionException "protocol error")
    | [0x80; 0x06; _; _] => Ok ([], 0x90, 0x00)
    | [0x80; _; _; _] => Ok ([], 0x6D, 0x00)
    | _ => Ok ([], 0x6E, 0x00)
    end).

(** A card that answers (0x90, 0x00) to every command. *)
Definition agreeable : CardTransceiver :=
  card_of (fun _ => Ok ([], 0x90, 0x00)).

(** The same card with one byte of response data. *)
Definition talkative : CardTransceiver :=
  card_of (fun _ => Ok ([0x2A], 0x90, 0x00)).

(** An environment that keeps a journal of the calls made into it, newest
    first.  Its log file opens unless it lies in a directory that does not
    exist; no card is ever presented. *)
Definition journal : CardTransceiver :=
  {| Reader := list string;
     Service := unit;
     basicConfig := fun log_file rd =>
       if String.prefix "/nonexistent_dir/" log_file
       then (Raise (OSError "No such file or directory"),
             "basicConfig" :: rd)
       else (Ok tt, "basicConfig" :: rd);
     waitforcard := fun _ rd =>
       (Raise CardRequestTimeoutException, "waitforcard" :: rd);
     connect := fun _ rd => (Ok tt, "connect" :: rd);
     transmit := fun _ _ rd => (Ok ([], 0x90, 0x00), "transmit" :: rd) |}.

(** ** Turns of the loops, and predicates on computations *)

Section Predicates.
Context {T : CardTransceiver} {Y : Type}.

(** [m] keeps [P]: from a world in [P] it ends in [P], whether it returns
    or raises. *)
Definition keeps {A} (P : world T Y -> Prop) (m : M T Y A) : Prop :=
  forall w, P w -> P (snd (m w)).

(** Every command transmitted so far satisfies [ok]. *)
Definition sent_ok (ok : list Z -> Prop) (w : world T Y) : Prop :=
  Forall ok (sends (log w)).

(** The first half of a turn of [_class_fuzzer]: the probe of one class,
    down to the status pair the turn tests. *)
Definition class_probe (self : Self T) (_class : Z) : M T Y (Z * Z) :=
  default <- first UNSUPPORTED_RESP ;;
  try_except
    ('(response, sw1, sw2) <- __send_apdu self _class 0x00 0x00 0x00 ;;
     ret (sw1, sw2))
    (fun e =>
       match e with
       | SWException _ => logging (GotSWException e)
       | _ => logging (WentWrong e)
       end ;;
       ret default).

(** One turn of [_class_fuzzer]. *)
Definition class_turn (self : Self T) (yield_ : Z -> M T Y unit) (_class : Z)
  : M T Y unit :=
  sw <- class_probe self _class ;;
  if negb (mem_pair sw UNSUPPORTED_RESP) then yield_ _class else ret tt.

(** One turn of [_instruction_fuzzer]. *)
Definition instruction_turn (self : Self T) (_class : Z)
           (yield_ : command -> M T Y unit) (instruction : Z) : M T Y unit :=
  if mem instruction BAD_INSTRUCTIONS then ret tt
  else
    '(respsonse, sw1, sw2) <- __send_apdu self _class instruction 0x00 0x00 ;;
    succes <- __get_succes sw1 sw2 ;;
    match succes with
    | SUCCES => yield_ (_class, instruction, 0x00, 0x00)
    | PARAM_FAIL =>
        param_fuzzer <- getattr self "param_fuzzer" ;;
        param_fuzzer _class instruction yield_
    | FAILED => ret tt
    end.
End Predicates.

(** The probes of a parameter sweep in the order of the nested loops:
    p1 outside, p2 inside, both ascending. *)
Definition parameter_probes (c i : Z) : list (list Z) :=
  flat_map (fun p1 => map (fun p2 => [c; i; p1; p2]) (range 256)) (range 256).

(** The probes of an instruction sweep: ascending, the blacklist skipped. *)
Definition instruction_probes (c : Z) : list (list Z) :=
  flat_map (fun i => if mem i BAD_INSTRUCTIONS then [] else [[c; i; 0; 0]])
           (range 256).

(** From [w], [m] transmits a first part of [probes], in that order, and
    the whole of it when it returns. *)
Definition sends_along {T : CardTransceiver} {Y : Type}
           (probes : list (list Z)) (m : M T Y unit) (w : world T Y) : Prop :=
  exists done rest : list (list Z),
    probes = done ++ rest
    /\ sends (log (snd (m w))) = sends (log w) ++ done
    /\ (fst (m w) = Ok tt -> rest = []).

(** Where a probe stands in the order of the sweep: class first, then
    instruction. *)
Definition rank (apdu : list Z) : Z := nth 0 apdu 0 * 256 + nth 1 apdu 0.

(** The invariant of [fuzz] under the consumer that keeps the commands:
    the output is the list of the probes classified [SUCCES], no command
    was classified twice, and every classified probe stands before
    [bound] in the order of the sweep. *)
Definition tallied {T : CardTransceiver} (bound : Z) (w : world T command)
  : Prop :=
  map apdu_of (out w) = confirmed (log w)
  /\ NoDup (map fst (classified (log w)))
  /\ (forall apdu s, In (apdu, s) (classified (log w)) -> rank apdu < bound).

(** ** Two readers side by side *)

Section SideBySide.
Context {T1 T2 : CardTransceiver} {Y : Type}.
Variable R : Reader T1 -> Reader T2 -> Prop.

(** Two worlds are alike when their readers are related and their
    consumers received the same things; the logs are free. *)
Definition alike (w1 : world T1 Y) (w2 : world T2 Y) : Prop :=
  R (reader w1) (reader w2) /\ out w1 = out w2.

(** The relation that asks nothing of two results. *)
Definition anything {A1 A2 : Type} (_ : A1) (_ : A2) : Prop := True.

(** Two computations go the same way from alike worlds: both return,
    with results related by [V], or both raise; and the worlds stay
    alike. *)
Definition sim {A1 A2} (V : A1 -> A2 -> Prop)
           (m1 : M T1 Y A1) (m2 : M T2 Y A2) : Prop :=
  forall w1 w2, alike w1 w2 ->
    match m1 w1, m2 w2 with
    | (Ok a1, w1'), (Ok a2, w2') => V a1 a2 /\ alike w1' w2'
    | (Raise _, w1'), (Raise _, w2') => alike w1' w2'
    | _, _ => False
    end.

(** The two readers answer every command with the same status pair, or
    both raise, whatever the response data; [R] relates the states from
    which this goes on holding. *)
Definition same_status (self1 : Self T1) (self2 : Self T2) : Prop :=
  forall apdu rd1 rd2, R rd1 rd2 ->
    match transmit T1 (cardservice self1) apdu rd1,
          transmit T2 (cardservice self2) apdu rd2 with
    | (Ok (_, sw1, sw2), rd1'), (Ok (_, sw1', sw2'), rd2') =>
        sw1 = sw1' /\ sw2 = sw2' /\ R rd1' rd2'
    | (Raise _, rd1'), (Raise _, rd2') => R rd1' rd2'
    | _, _ => False
    end.
End SideBySide.

(** ** Predicates on outputs and logs *)

(** The class and the instruction byte of a yielded command. *)
Definition class_of (cmd : command) : Z := fst (fst (fst cmd)).
Definition ins_of (cmd : command) : Z := snd (fst (fst cmd)).

(** A zero-parameter command of a class and an instruction that the sweeps
    reach: both bytes in 0..255, the instruction outside the blacklist. *)
Definition zero_parameter (cmd : command) : Prop :=
  exists c i : Z,
    cmd = (c, i, 0, 0) /\ 0 <= c <= 255 /\ 0 <= i <= 255
    /\ ~ In i [0x20; 0x24].

(** [x] comes before [y] in the order of the sweep: a lower class, or the
    same class and a lower instruction. *)
Definition precedes (x y : command) : Prop :=
  class_of x < class_of y
  \/ (class_of x = class_of y /\ ins_of x < ins_of y).

(** A log, newest entry first, reads as a trail of exchanges: a command
    sent has four bytes; an answer, or the note of an exception, stands
    right after the command it belongs to, the note being the one of the
    handler that caught the exception; a verdict stands right after an
    answer and is the one of its status pair. *)
Fixpoint well_kept (l : list entry) : Prop :=
  match l with
  | [] => True
  | e :: l' =>
      well_kept l'
      /\ match e with
         | Send apdu => List.length apdu = 4%nat
         | Returned _ _ _ => exists apdu l'', l' = Send apdu :: l''
         | GotSWException x =>
             (exists msg, x = SWException msg)
             /\ exists apdu l'', l' = Send apdu :: l''
         | WentWrong x =>
             (forall msg, x <> SWException msg)
             /\ exists apdu l'', l' = Send apdu :: l''
         | CommandSucces | PartialSucces | CommandFailed =>
             exists response sw1 sw2 l'',
               l' = Returned response sw1 sw2 :: l''
               /\ e = verdict_entry (classify sw1 sw2)
         end
  end.

(** The log of a world is such a trail. *)
Definition trail {T : CardTransceiver} (w : world T command) : Prop :=
  well_kept (log w).

(** No verdict of parameter failure is in the log. *)
Definition unescalated {T : CardTransceiver} (w : world T command) : Prop :=
  ~ In PartialSucces (log w).

(** The two worlds an exception of [fuzz] leaves behind: the failed
    escalation after an answer (0x6a, 0x86), and the command that got no
    answer. *)
Definition stopped {T : CardTransceiver} (e : exn) (w : world T command)
  : Prop :=
  (e = AttributeError "param_fuzzer"
   /\ exists response apdu l,
        log w = PartialSucces :: Returned response 0x6a 0x86 :: Send apdu :: l
        /\ ~ In PartialSucces l)
  \/ (exists apdu l, log w = Send apdu :: l /\ ~ In PartialSucces l).

(** ** A card without state, as a table of answers *)

Section Table.
Variable answer : list Z -> res (list Z * Z * Z).

(** The class probe of [c] is answered, and not by the unsupported
    marker. *)
Definition supported (c : Z) : bool :=
  match answer [c; 0; 0; 0] with
  | Ok (_, sw1, sw2) => negb (pair_eqb (sw1, sw2) (0x6E, 0x00))
  | Raise _ => false
  end.

(** The zero-parameter probe of instruction [i] of class [c] is answered
    with a status that classifies as a success. *)
Definition accepted (c i : Z) : bool :=
  match answer [c; i; 0; 0] with
  | Ok (_, sw1, sw2) => is_SUCCES (classify sw1 sw2)
  | Raise _ => false
  end.

(** The accepted zero-parameter commands of the supported classes, in the
    order of the sweep. *)
Definition discoveries : list command :=
  flat_map (fun c =>
    if supported c
    then flat_map (fun i =>
           if mem i BAD_INSTRUCTIONS then []
           else if accepted c i then [(c, i, 0, 0)] else [])
         (range 256)
    else [])
    (range 256).

(** The probes of a whole run: each class probe, followed by the
    instruction probes of the class when it is supported. *)
Definition traffic : list (list Z) :=
  flat_map (fun c =>
    [c; 0; 0; 0] :: (if supported c then instruction_probes c else []))
    (range 256).

(** Every instruction probe of a supported class is answered, and never
    with a status that classifies as a parameter failure. *)
Definition plain : Prop :=
  forall c i : Z,
    supported c = true ->
    mem i BAD_INSTRUCTIONS = false ->
    match answer [c; i; 0; 0] with
    | Ok (_, sw1, sw2) => classify sw1 sw2 <> PARAM_FAIL
    | Raise _ => False
    end.
End Table.

(** A table for a card of one class and one command: class 0x80 is
    supported, and of its instructions only 0x10 is accepted. *)
Definition one_command (apdu : list Z) : res (list Z * Z * Z) :=
  if nth 0 apdu 0 =? 0x80
  then if nth 1 apdu 0 =? 0x10 then Ok ([], 0x90, 0x00)
       else Ok ([], 0x6D, 0x00)
  else Ok ([], 0x6E, 0x00).

(** * Properties *)

(** ** The classifier *)

Lemma mem_In (x : Z) (l : list Z) : mem x l = true <-> In x l.
Proof.
  unfold mem. rewrite existsb_exists. split.
  - intros (y & Hy & E). apply Z.eqb_eq in E. now subst.
  - intros H. exists x. split; [assumption | apply Z.eqb_refl].
Qed.

Lemma pair_eqb_eq (p q : Z * Z) : pair_eqb p q = true <-> p = q.
Proof.
  destruct p as [a b], q as [c d]. unfold pair_eqb. cbn [fst snd].
  rewrite andb_true_iff, !Z.eqb_eq. split.
  - intros [-> ->]. reflexivity.
  - intros E. inversion E. auto.
Qed.

Lemma mem_pair_In (p : Z * Z) (l : list (Z * Z)) :
  mem_pair p l = true <-> In p l.
Proof.
  unfold mem_pair. rewrite existsb_exists. split.
  - intros (y & Hy & E). apply pair_eqb_eq in E. now subst.
  - intros H. exists p. split; [assumption | now apply pair_eqb_eq].
Qed.

Lemma mem_spec (x : Z) (l : list Z) :
  BoolSpec (In x l) (~ In x l) (mem x l).
Proof.
  destruct (mem x l) eqn:E; constructor.
  - now apply mem_In.
  - rewrite <- mem_In. congruence.
Qed.

Lemma mem_pair_spec (p : Z * Z) (l : list (Z * Z)) :
  BoolSpec (In p l) (~ In p l) (mem_pair p l).
Proof.
  destruct (mem_pair p l) eqn:E; constructor.
  - now apply mem_pair_In.
  - rewrite <- mem_pair_In. congruence.
Qed.

(** [__get_succes] returns the constant of [classify], logs its message and
    touches nothing else. *)
Lemma get_succes_run {T Y} (sw1 sw2 : Z) (w : world T Y) :
  __get_succes sw1 sw2 w
  = (Ok (classify sw1 sw2),
     World (reader w) (verdict_entry (classify sw1 sw2) :: log w) (out w)).
Proof.
  unfold __get_succes, classify.
  rewrite <- !andb_assoc,
    (andb_comm (negb (mem_pair (sw1, sw2) SUCCESS_FAIL_RESP))).
  destruct (mem sw1 SUCCESS_LIST_RESP); cbn [andb];
    destruct (mem_pair (sw1, sw2) SUCCESS_BAD_PARAM_RESP); cbn [andb negb];
    try destruct (mem_pair (sw1, sw2) SUCCESS_FAIL_RESP); reflexivity.
Qed.

(** C2.  [__get_succes] follows the three rules in order.  On every pair of
    status bytes, in whatever world it is called, it returns one constant:
    [SUCCES] exactly when sw1 is in the success list and the pair is in
    neither the parameter-failure nor the hard-failure table; otherwise
    [PARAM_FAIL] exactly when the pair is in the parameter-failure table;
    otherwise [FAILED].  The constant is that of the three-rule [classify]
    and does not depend on the world of the call. *)
Theorem get_succes_three_rules :
  forall (T : CardTransceiver) (Y : Type) (sw1 sw2 : Z) (w : world T Y),
    let first_rule :=
      In sw1 SUCCESS_LIST_RESP
      /\ ~ In (sw1, sw2) SUCCESS_BAD_PARAM_RESP
      /\ ~ In (sw1, sw2) SUCCESS_FAIL_RESP in
    let second_rule := In (sw1, sw2) SUCCESS_BAD_PARAM_RESP in
    exists s : Status,
      fst (__get_succes sw1 sw2 w) = Ok s
      /\ s = classify sw1 sw2
      /\ (s = SUCCES <-> first_rule)
      /\ (s = PARAM_FAIL <-> ~ first_rule /\ second_rule)
      /\ (s = FAILED <-> ~ first_rule /\ ~ second_rule)
      /\ (forall (T' : CardTransceiver) (Y' : Type) (w' : world T' Y'),
             fst (__get_succes sw1 sw2 w') = Ok s).
Proof.
  intros T Y sw1 sw2 w first_rule second_rule.
  exists (classify sw1 sw2). rewrite get_succes_run. cbn [fst].
  split; [reflexivity | split; [reflexivity |]].
  assert (D : (first_rule /\ classify sw1 sw2 = SUCCES)
              \/ (~ first_rule /\ second_rule /\ classify sw1 sw2 = PARAM_FAIL)
              \/ (~ first_rule /\ ~ second_rule /\ classify sw1 sw2 = FAILED)).
  { unfold classify, first_rule, second_rule.
    destruct (mem_spec sw1 SUCCESS_LIST_RESP);
      destruct (mem_pair_spec (sw1, sw2) SUCCESS_BAD_PARAM_RESP);
      destruct (mem_pair_spec (sw1, sw2) SUCCESS_FAIL_RESP);
      cbn [andb negb];
      intuition congruence. }
  clearbody first_rule second_rule.
  assert (E : forall (T' : CardTransceiver) (Y' : Type) (w' : world T' Y'),
             fst (__get_succes sw1 sw2 w') = Ok (classify sw1 sw2))
    by (intros; rewrite get_succes_run; reflexivity).
  destruct D as [[H1 H2] | [(H1 & H2 & H3) | (H1 & H2 & H3)]];
    (split; [| split; [| split]]); try exact E;
    rewrite ?H3, ?H2; intuition congruence.
Qed.

Lemma classify_other (sw1 sw2 : Z) :
  ~ In sw1 SUCCESS_LIST_RESP -> classify sw1 sw2 = FAILED.
Proof.
  intros H. unfold classify.
  destruct (mem_spec sw1 SUCCESS_LIST_RESP) as [H1 | _]; [contradiction |].
  cbn [andb].
  destruct (mem_pair_spec (sw1, sw2) SUCCESS_BAD_PARAM_RESP) as [H2 | _];
    [| reflexivity].
  exfalso. apply H. destruct H2 as [E | []]. inversion E.
  unfold SUCCESS_LIST_RESP. cbn [In]. tauto.
Qed.

Lemma classify_6a (sw2 : Z) :
  classify 0x6a sw2
  = if sw2 =? 0x86 then PARAM_FAIL
    else if sw2 =? 0x81 then FAILED else SUCCES.
Proof.
  unfold classify, mem_pair, pair_eqb, SUCCESS_BAD_PARAM_RESP,
    SUCCESS_FAIL_RESP.
  cbn [existsb fst snd].
  change (mem 0x6a SUCCESS_LIST_RESP) with true.
  change (0x6a =? 0x6a) with true. cbn [andb orb].
  rewrite !orb_false_r.
  destruct (sw2 =? 0x86); destruct (sw2 =? 0x81); reflexivity.
Qed.

(** C9.  The tables as the class fixes them.  Whatever sw2 is,
    [__get_succes] returns [SUCCES] for sw1 among 0x90, 0x61, 0x67 and 0x6c;
    for sw1 = 0x6a it returns [SUCCES] exactly when sw2 is neither 0x81 nor
    0x86, [PARAM_FAIL] on (0x6a, 0x86) and [FAILED] on (0x6a, 0x81); and it
    returns [FAILED] for every sw1 outside the five success bytes. *)
Theorem get_succes_tables :
  forall (T : CardTransceiver) (Y : Type) (w : world T Y) (sw2 : Z),
    let result := fun sw1 sw2 => fst (__get_succes sw1 sw2 w) in
    (forall sw1 : Z,
        In sw1 [0x90; 0x61; 0x67; 0x6c] -> result sw1 sw2 = Ok SUCCES)
    /\ (result 0x6a sw2 = Ok SUCCES <-> ~ In sw2 [0x81; 0x86])
    /\ result 0x6a 0x86 = Ok PARAM_FAIL
    /\ result 0x6a 0x81 = Ok FAILED
    /\ (forall sw1 : Z,
           ~ In sw1 [0x90; 0x61; 0x67; 0x6c; 0x6a] ->
           result sw1 sw2 = Ok FAILED).
Proof.
  intros T Y w sw2 result. unfold result. clear result.
  repeat match goal with |- _ /\ _ => split end.
  - intros sw1 H. rewrite get_succes_run. cbn [fst].
    cbn [In] in H.
    destruct H as [<- | [<- | [<- | [<- | []]]]]; reflexivity.
  - rewrite get_succes_run, classify_6a. cbn [fst In].
    destruct (Z.eqb_spec sw2 0x86); destruct (Z.eqb_spec sw2 0x81);
      split; intros; try discriminate; try reflexivity; try lia;
      intuition congruence.
  - rewrite get_succes_run. reflexivity.
  - rewrite get_succes_run. reflexivity.
  - intros sw1 H. rewrite get_succes_run. cbn [fst].
    now rewrite classify_other.
Qed.

(** ** Invariants of a computation *)

Section Rules.
Context {T : CardTransceiver} {Y : Type}.
Implicit Type P : world T Y -> Prop.

Lemma keeps_ret {A} P (a : A) : keeps P (ret a).
Proof. intros w H. exact H. Qed.

Lemma keeps_raise {A} P (e : exn) : keeps P (@raise T Y A e).
Proof. intros w H. exact H. Qed.

Lemma keeps_bind {A B} P (m : M T Y A) (k : A -> M T Y B) :
  keeps P m -> (forall a, keeps P (k a)) -> keeps P (bind m k).
Proof.
  intros Hm Hk w H. unfold bind. specialize (Hm w H).
  destruct (m w) as [[a | e] w']; cbn [snd] in *.
  - now apply Hk.
  - exact Hm.
Qed.

Lemma keeps_try_except {A} P (body : M T Y A) (handler : exn -> M T Y A) :
  keeps P body -> (forall e, keeps P (handler e)) ->
  keeps P (try_except body handler).
Proof.
  intros Hb Hh w H. unfold try_except. specialize (Hb w H).
  destruct (body w) as [[a | e] w']; cbn [snd] in *.
  - exact Hb.
  - now apply Hh.
Qed.

Lemma keeps_for_each P (xs : list Z) (body : Z -> M T Y unit) :
  (forall x, In x xs -> keeps P (body x)) -> keeps P (for_each xs body).
Proof.
  induction xs as [| x xs IH]; intros Hb; cbn [for_each].
  - apply keeps_ret.
  - apply keeps_bind.
    + apply Hb. now left.
    + intros _. apply IH. intros y Hy. apply Hb. now right.
Qed.

Lemma keeps_first {A} P (l : list A) : keeps P (first l).
Proof. destruct l; [apply keeps_raise | apply keeps_ret]. Qed.

Lemma keeps_load_name P scope name : keeps P (load_name scope name).
Proof.
  unfold load_name. destruct (find _ scope);
    [apply keeps_ret | apply keeps_raise].
Qed.

(** A loop over consecutive integers with an invariant that follows the
    index: each turn moves it one up, and it only weakens as the index
    grows, so it also holds when a turn raises and the loop stops. *)
Lemma for_each_counted (I : Z -> world T Y -> Prop)
      (body : Z -> M T Y unit) (len a : nat) :
  (forall k w, Z.of_nat a <= k < Z.of_nat (a + len) ->
               I k w -> I (k + 1) (snd (body k w))) ->
  (forall k w, I k w -> I (k + 1) w) ->
  forall w, I (Z.of_nat a) w ->
            I (Z.of_nat (a + len))
              (snd (for_each (map Z.of_nat (seq a len)) body w)).
Proof.
  intros Hbody Hmono. revert a Hbody.
  induction len as [| len IH]; intros a Hbody w H; cbn [seq map for_each].
  - rewrite Nat.add_0_r. exact H.
  - assert (Hup : forall n w, I (Z.of_nat (S a)) w ->
                              I (Z.of_nat (S a + n)) w).
    { induction n as [| n IHn]; intros w0 H0.
      - now rewrite Nat.add_0_r.
      - replace (Z.of_nat (S a + S n)) with (Z.of_nat (S a + n) + 1) by lia.
        apply Hmono, IHn, H0. }
    assert (Hstep : I (Z.of_nat (S a)) (snd (body (Z.of_nat a) w))).
    { replace (Z.of_nat (S a)) with (Z.of_nat a + 1) by lia.
      apply Hbody; [lia | exact H]. }
    replace (a + S len)%nat with (S a + len)%nat by lia.
    unfold bind. destruct (body (Z.of_nat a) w) as [[[] | e] w'];
      cbn [snd] in *.
    + apply IH; [| exact Hstep].
      intros k w0 Hk. apply Hbody. lia.
    + apply Hup, Hstep.
Qed.

(** A transmission, step by step: the command is logged, then the answer
    if there is one. *)
Lemma send_apdu_run (self : Self T) (c i p1 p2 : Z) (w : world T Y) :
  __send_apdu self c i p1 p2 w
  = match transmit T (cardservice self) [c; i; p1; p2] (reader w) with
    | (Ok (response, sw1, sw2), rd') =>
        (Ok (response, sw1, sw2),
         World rd' (Returned response sw1 sw2 :: Send [c; i; p1; p2] :: log w)
               (out w))
    | (Raise e, rd') =>
        (Raise e, World rd' (Send [c; i; p1; p2] :: log w) (out w))
    end.
Proof.
  unfold __send_apdu, bind, logging, external. cbn [reader log out].
  destruct (transmit T (cardservice self) [c; i; p1; p2] (reader w))
    as [[[[response sw1] sw2] | e] rd']; reflexivity.
Qed.

(** The attribute the instruction sweep asks for is not one of the
    instance. *)
Lemma getattr_param_fuzzer (self : Self T) :
  getattr (Y := Y) self "param_fuzzer" = raise (AttributeError "param_fuzzer").
Proof. reflexivity. Qed.

(** One turn of the instruction sweep on an instruction that is not
    blacklisted. *)
Lemma instruction_turn_run (self : Self T) (c i : Z)
      (yield_ : command -> M T Y unit) (w : world T Y) :
  mem i BAD_INSTRUCTIONS = false ->
  instruction_turn self c yield_ i w
  = match transmit T (cardservice self) [c; i; 0; 0] (reader w) with
    | (Ok (response, sw1, sw2), rd') =>
        let w' :=
          World rd'
                (verdict_entry (classify sw1 sw2)
                   :: Returned response sw1 sw2 :: Send [c; i; 0; 0] :: log w)
                (out w) in
        match classify sw1 sw2 with
        | SUCCES => yield_ (c, i, 0, 0) w'
        | FAILED => (Ok tt, w')
        | PARAM_FAIL => (Raise (AttributeError "param_fuzzer"), w')
        end
    | (Raise e, rd') =>
        (Raise e, World rd' (Send [c; i; 0; 0] :: log w) (out w))
    end.
Proof.
  intros Hi. unfold instruction_turn. rewrite Hi.
  unfold bind at 1. rewrite send_apdu_run.
  destruct (transmit T (cardservice self) [c; i; 0; 0] (reader w))
    as [[[[response sw1] sw2] | e] rd']; [| reflexivity].
  unfold bind at 1. rewrite get_succes_run. cbn [reader log out].
  destruct (classify sw1 sw2); reflexivity.
Qed.

(** The loops of the class, turn by turn. *)
Lemma class_fuzzer_turns (self : Self T) (yield_ : Z -> M T Y unit) :
  _class_fuzzer self yield_
  = for_each (range 256) (class_turn self yield_).
Proof. reflexivity. Qed.

Lemma instruction_fuzzer_turns (self : Self T) (_class : Z)
      (yield_ : command -> M T Y unit) :
  _instruction_fuzzer self _class yield_
  = for_each (range 256) (instruction_turn self _class yield_).
Proof. reflexivity. Qed.
End Rules.

(** An invariant that no reader call disturbs, that stands the logging of
    a command satisfying [ok], and the logging of what is neither a command
    nor a verdict, is kept by a transmission and by a class probe. *)
Section Stable.
Context {T : CardTransceiver} {Y : Type}.
Variable P : world T Y -> Prop.
Variable ok : list Z -> Prop.
Hypothesis P_external :
  forall A (op : Reader T -> res A * Reader T), keeps P (external op).
Hypothesis P_Send : forall apdu, ok apdu -> keeps P (logging (Send apdu)).
Hypothesis P_other :
  forall e, sends [e] = [] -> verdict e = None -> keeps P (logging e).

Lemma keeps_send_apdu (self : Self T) (_class instruction p1 p2 : Z) :
  ok [_class; instruction; p1; p2] ->
  keeps P (__send_apdu self _class instruction p1 p2).
Proof.
  intros H. unfold __send_apdu.
  apply keeps_bind; [now apply P_Send | intros _].
  apply keeps_bind; [apply P_external | intros [[response sw1] sw2]].
  apply keeps_bind; [now apply P_other | intros _].
  apply keeps_ret.
Qed.

Lemma keeps_class_probe (self : Self T) (_class : Z) :
  ok [_class; 0; 0; 0] -> keeps P (class_probe self _class).
Proof.
  intros Hok. unfold class_probe.
  apply keeps_bind; [apply keeps_first | intros default].
  apply keeps_try_except.
  - apply keeps_bind; [apply keeps_send_apdu, Hok |].
    intros [[response sw1] sw2]. apply keeps_ret.
  - intros e. apply keeps_bind; [| intros _; apply keeps_ret].
    destruct e; now apply P_other.
Qed.

Lemma keeps_init (timeout : Z) (log_file : string) :
  keeps P (__init__ timeout log_file).
Proof.
  unfold __init__, __get_card.
  repeat (apply keeps_bind; [| intros ?]);
    try apply P_external; apply keeps_ret.
Qed.
End Stable.

(** ** What is transmitted *)

Section Transmitted.
Context {T : CardTransceiver} {Y : Type}.
Variable ok : list Z -> Prop.
Local Abbreviation sent_ok' := (sent_ok (T := T) (Y := Y) ok).

Lemma sent_ok_external {A} (op : Reader T -> res A * Reader T) :
  keeps sent_ok' (external op).
Proof.
  intros w Hw. unfold external. destruct (op (reader w)). exact Hw.
Qed.

Lemma sent_ok_Send (apdu : list Z) :
  ok apdu -> keeps sent_ok' (logging (Send apdu)).
Proof.
  intros H w Hw. unfold sent_ok in *. cbn. apply Forall_app. split.
  - exact Hw.
  - constructor; [exact H | constructor].
Qed.

Lemma sent_ok_logging (e : entry) :
  sends [e] = [] -> keeps sent_ok' (logging e).
Proof.
  intros H w Hw. unfold sent_ok in *. cbn [logging snd log].
  destruct e; try discriminate; exact Hw.
Qed.

Lemma sent_ok_emit (y : Y) : keeps sent_ok' (emit y).
Proof. intros w Hw. exact Hw. Qed.

Lemma sent_ok_send_apdu (self : Self T) (_class instruction p1 p2 : Z) :
  ok [_class; instruction; p1; p2] ->
  keeps sent_ok' (__send_apdu self _class instruction p1 p2).
Proof.
  apply keeps_send_apdu;
    auto using @sent_ok_external, sent_ok_Send, sent_ok_logging.
Qed.

Lemma sent_ok_get_succes (sw1 sw2 : Z) :
  keeps sent_ok' (__get_succes sw1 sw2).
Proof.
  intros w Hw. rewrite get_succes_run. cbn [snd].
  unfold sent_ok in *. cbn [log].
  destruct (classify sw1 sw2); exact Hw.
Qed.

Lemma sent_ok_class_fuzzer (self : Self T) (yield_ : Z -> M T Y unit) :
  (forall c, ok [c; 0; 0; 0]) ->
  (forall c, keeps sent_ok' (yield_ c)) ->
  keeps sent_ok' (_class_fuzzer self yield_).
Proof.
  intros Hok Hy. rewrite class_fuzzer_turns.
  apply keeps_for_each. intros c _. unfold class_turn. apply keeps_bind.
  - apply (keeps_class_probe sent_ok' ok);
      auto using @sent_ok_external, sent_ok_Send, sent_ok_logging.
  - intros sw. destruct (negb _); [apply Hy | apply keeps_ret].
Qed.

Lemma sent_ok_param_fuzzer (self : Self T) (_class instruction : Z)
      (yield_ : command -> M T Y unit) :
  (forall p1 p2, ok [_class; instruction; p1; p2]) ->
  (forall y, keeps sent_ok' (yield_ y)) ->
  keeps sent_ok' (_param_fuzzer self _class instruction yield_).
Proof.
  intros Hok Hy. unfold _param_fuzzer.
  apply keeps_for_each. intros p1 _.
  apply keeps_for_each. intros p2 _.
  apply keeps_bind; [apply sent_ok_send_apdu, Hok |].
  intros [[response sw1] sw2].
  apply keeps_bind; [apply sent_ok_get_succes | intros succes].
  destruct succes; try apply keeps_ret.
  apply keeps_bind; [apply keeps_load_name | intros ins; apply Hy].
Qed.

Lemma sent_ok_instruction_fuzzer (self : Self T) (_class : Z)
      (yield_ : command -> M T Y unit) :
  (forall i p1 p2, ~ In i BAD_INSTRUCTIONS -> ok [_class; i; p1; p2]) ->
  (forall y, keeps sent_ok' (yield_ y)) ->
  keeps sent_ok' (_instruction_fuzzer self _class yield_).
Proof.
  intros Hok Hy. rewrite instruction_fuzzer_turns.
  apply keeps_for_each. intros i _. unfold instruction_turn.
  destruct (mem_spec i BAD_INSTRUCTIONS) as [Hbad | Hgood];
    [apply keeps_ret |].
  apply keeps_bind; [now apply sent_ok_send_apdu, Hok |].
  intros [[response sw1] sw2].
  apply keeps_bind; [apply sent_ok_get_succes | intros succes].
  destruct succes; [apply Hy | apply keeps_ret |].
  (* the delegation: whatever the lookup returns is a parameter sweep of
     this class and instruction *)
  intros w Hw. unfold bind, getattr.
  destruct (negb _); [exact Hw |].
  destruct (String.eqb _ _); [| exact Hw]. cbn [ret].
  apply sent_ok_param_fuzzer; [| exact Hy | exact Hw].
  intros p1 p2. now apply Hok.
Qed.

Lemma sent_ok_fuzz (self : Self T) (yield_ : command -> M T Y unit) :
  (forall c i p1 p2, ~ In i BAD_INSTRUCTIONS -> ok [c; i; p1; p2]) ->
  (forall c, ok [c; 0; 0; 0]) ->
  (forall y, keeps sent_ok' (yield_ y)) ->
  keeps sent_ok' (fuzz self yield_).
Proof.
  intros Hok H0 Hy. unfold fuzz.
  apply sent_ok_class_fuzzer; [exact H0 |].
  intros c. apply sent_ok_instruction_fuzzer; [| exact Hy].
  intros i p1 p2. apply Hok.
Qed.

Lemma sent_ok_init (timeout : Z) (log_file : string) :
  keeps sent_ok' (__init__ timeout log_file).
Proof.
  apply (keeps_init sent_ok'). intros A op. apply sent_ok_external.
Qed.
End Transmitted.

(** C4.  No run transmits a blacklisted instruction.  From an empty log,
    every command sent by [fuzz] (and so by [main]) has an instruction byte
    outside [BAD_INSTRUCTIONS] = {0x20, 0x24}: the class sweep only sends
    instruction 0x00, the instruction sweep only sends bytes that passed
    the blacklist test, and a parameter sweep only sends the instruction
    it was given. *)
Theorem blacklisted_never_transmitted :
  forall (T : CardTransceiver) (self : Self T) (rd : Reader T),
    let safe := fun apdu => ~ In (instruction_of apdu) [0x20; 0x24] in
    let transmitted :=
      fun Y (m : M T Y unit) => sends (log (snd (m (start rd)))) in
    Forall safe (transmitted command (fuzz self emit))
    /\ Forall safe (transmitted command main)
    /\ Forall (fun apdu => instruction_of apdu = 0x00)
              (transmitted Z (_class_fuzzer self emit))
    /\ (forall c : Z,
           Forall safe (transmitted command (_instruction_fuzzer self c emit)))
    /\ (forall c i : Z,
           Forall (fun apdu => instruction_of apdu = i)
                  (transmitted command (_param_fuzzer self c i emit))).
Proof.
  intros T self rd safe transmitted. unfold transmitted. clear transmitted.
  assert (Hzero : forall c : Z, safe [c; 0; 0; 0]).
  { intros c. unfold safe, instruction_of. cbn. lia. }
  assert (Hstart : forall Y ok, sent_ok ok (@start T Y rd))
    by (intros; constructor).
  repeat match goal with |- _ /\ _ => split end.
  - apply (sent_ok_fuzz safe); auto using sent_ok_emit.
  - unfold main.
    apply (keeps_bind (sent_ok safe)); [apply sent_ok_init | | auto].
    intros smart_fuzzer. apply sent_ok_fuzz; auto using sent_ok_emit.
  - apply (sent_ok_class_fuzzer (fun apdu => instruction_of apdu = 0));
      auto using sent_ok_emit.
  - intros c. apply (sent_ok_instruction_fuzzer safe); auto using sent_ok_emit.
  - intros c i.
    apply (sent_ok_param_fuzzer (fun apdu => instruction_of apdu = i));
      auto using sent_ok_emit.
Qed.

(** ** The class sweep *)

Lemma In_range (n : nat) (x : Z) : In x (range n) <-> 0 <= x < Z.of_nat n.
Proof.
  unfold range. rewrite in_map_iff. split.
  - intros (k & <- & Hk). apply in_seq in Hk. lia.
  - intros H. exists (Z.to_nat x). split; [lia | apply in_seq; lia].
Qed.

Lemma range_S (n : nat) : range (S n) = range n ++ [Z.of_nat n].
Proof. unfold range. now rewrite seq_S, map_app. Qed.

Section ClassSweep.
Context {T : CardTransceiver}.
Variable self : Self T.

(** A class probe always returns: the pair of the answer, or the default
    when the transmission raised.  It sends one command and leaves the
    output alone. *)
Lemma class_probe_run {Y} (c : Z) (w : world T Y) :
  let w' := snd (class_probe self c w) in
  fst (class_probe self c w) = Ok (class_answer self c (reader w))
  /\ reader w' = snd (transmit T (cardservice self) [c; 0; 0; 0] (reader w))
  /\ out w' = out w
  /\ sends (log w') = sends (log w) ++ [[c; 0; 0; 0]].
Proof.
  unfold class_probe, class_answer, __send_apdu, try_except, bind, first,
    external, logging, ret, UNSUPPORTED_RESP.
  cbn [reader log out].
  destruct (transmit T (cardservice self) [c; 0; 0; 0] (reader w))
    as [[[[response sw1] sw2] | e] rd'] eqn:E; cbn [fst snd].
  - cbn. auto.
  - destruct e; cbn; auto.
Qed.

Lemma class_turn_run (c : Z) (w : world T Z) :
  let w' := snd (class_turn self emit c w) in
  fst (class_turn self emit c w) = Ok tt
  /\ reader w' = snd (transmit T (cardservice self) [c; 0; 0; 0] (reader w))
  /\ out w' = (if negb (pair_eqb (class_answer self c (reader w)) (0x6E, 0x00))
               then [c] else []) ++ out w
  /\ sends (log w') = sends (log w) ++ [[c; 0; 0; 0]].
Proof.
  destruct (class_probe_run c w) as (H1 & H2 & H3 & H4).
  unfold class_turn, bind.
  destruct (class_probe self c w) as [[sw | e] w1];
    cbn [fst snd] in *; [| discriminate].
  injection H1 as ->.
  unfold mem_pair, UNSUPPORTED_RESP. cbn [existsb]. rewrite orb_false_r.
  destruct (negb _); cbn; rewrite ?H3; auto.
Qed.

Lemma class_sweep_run (rd0 : Reader T) (n a : nat) (w : world T Z) :
  reader w = reader_after self (range a) rd0 ->
  let cs := map Z.of_nat (seq a n) in
  let run := for_each cs (class_turn self emit) w in
  fst run = Ok tt
  /\ reader (snd run) = reader_after self (range (a + n)) rd0
  /\ out (snd run) = rev (filter (acknowledged self rd0) cs) ++ out w
  /\ sends (log (snd run))
     = sends (log w) ++ map (fun c => [c; 0; 0; 0]) cs.
Proof.
  revert a w. induction n as [| n IH]; intros a w Hrd;
    cbn [seq map for_each filter rev].
  - rewrite Nat.add_0_r, app_nil_r. cbn. auto.
  - destruct (class_turn_run (Z.of_nat a) w) as (H1 & H2 & H3 & H4).
    unfold bind.
    destruct (class_turn self emit (Z.of_nat a) w) as [[[] | e] w1];
      cbn [fst snd] in *; [| discriminate].
    assert (Hrd1 : reader w1 = reader_after self (range (S a)) rd0).
    { rewrite H2, Hrd, range_S. unfold reader_after.
      now rewrite fold_left_app. }
    destruct (IH (S a) w1 Hrd1) as (I1 & I2 & I3 & I4).
    replace (a + S n)%nat with (S a + n)%nat by lia.
    repeat split; [exact I1 | exact I2 | |].
    + rewrite I3, H3. unfold acknowledged at 2.
      rewrite Nat2Z.id, <- Hrd.
      destruct (negb _); cbn [rev app]; now rewrite <- ?app_assoc.
    + rewrite I4, H4. now rewrite <- app_assoc.
Qed.
End ClassSweep.

(** C6.  The class sweep run on its own, from an empty log.  It always
    comes to its end and transmits the probes [c, 0, 0, 0] for c = 0..255
    in that order; it yields, in ascending order, exactly the classes whose
    probe left a status pair other than (0x6E, 0x00); and when the
    transmission for a class raises, the pair is the default (0x6E, 0x00)
    and the class is not yielded. *)
Theorem class_fuzzer_yields_acknowledged :
  forall (T : CardTransceiver) (self : Self T) (rd : Reader T),
    let run := _class_fuzzer self emit (start rd) in
    let before := fun c : Z => reader_after self (range (Z.to_nat c)) rd in
    fst run = Ok tt
    /\ sends (log (snd run)) = map (fun c => [c; 0; 0; 0]) (range 256)
    /\ rev (out (snd run)) = filter (acknowledged self rd) (range 256)
    /\ (forall c : Z,
           In c (out (snd run))
           <-> 0 <= c <= 255
               /\ class_answer self c (before c) <> (0x6E, 0x00))
    /\ (forall (c : Z) (e : exn),
           0 <= c <= 255 ->
           fst (transmit T (cardservice self) [c; 0; 0; 0] (before c))
           = Raise e ->
           class_answer self c (before c) = (0x6E, 0x00)
           /\ ~ In c (out (snd run))).
Proof.
  intros T self rd run before.
  destruct (class_sweep_run self rd 256 0 (start rd) eq_refl)
    as (H1 & _ & H3 & H4).
  fold (range 256) in H1, H3, H4. rewrite <- class_fuzzer_turns in H1, H3, H4.
  fold run in H1, H3, H4. cbn [start log out] in H3, H4.
  rewrite app_nil_r in H3. cbn [app] in H4.
  assert (Hin : forall c : Z,
             In c (out (snd run))
             <-> 0 <= c <= 255
                 /\ class_answer self c (before c) <> (0x6E, 0x00)).
  { intros c. rewrite H3, <- in_rev, filter_In, In_range.
    unfold acknowledged. fold (before c).
    rewrite negb_true_iff, <- not_true_iff_false, pair_eqb_eq.
    change (Z.of_nat 256) with 256. intuition lia. }
  repeat match goal with |- _ /\ _ => split end.
  - exact H1.
  - exact H4.
  - rewrite H3. apply rev_involutive.
  - exact Hin.
  - unfold class_answer. intros c e Hc E. rewrite E. split; [reflexivity |].
    rewrite Hin. unfold class_answer. rewrite E. tauto.
Qed.

(** ** What is yielded *)

Lemma classified_quiet (e : entry) (l : list entry) :
  verdict e = None -> classified (e :: l) = classified l.
Proof. intros H. cbn [classified]. now rewrite H. Qed.

Lemma classified_probe (s : Status) (response : list Z) (sw1 sw2 : Z)
      (apdu : list Z) (l : list entry) :
  classified (verdict_entry s :: Returned response sw1 sw2 :: Send apdu :: l)
  = (apdu, s) :: classified l.
Proof. destruct s; reflexivity. Qed.

Section Tally.
Context {T : CardTransceiver}.
Implicit Type w : world T command.

Lemma tallied_weaken (b b' : Z) w : b <= b' -> tallied b w -> tallied b' w.
Proof.
  intros Hb (H1 & H2 & H3). repeat split; try assumption.
  intros apdu s H. specialize (H3 apdu s H). lia.
Qed.

Lemma tallied_external (b : Z) {A} (op : Reader T -> res A * Reader T) :
  keeps (tallied b) (external op).
Proof.
  intros w H. unfold external. destruct (op (reader w)). exact H.
Qed.

Lemma tallied_quiet (b : Z) (e : entry) :
  verdict e = None -> keeps (tallied (T := T) b) (logging e).
Proof.
  intros He w (H1 & H2 & H3).
  unfold tallied, confirmed, logging in *. cbn [snd log out].
  rewrite classified_quiet by assumption. auto.
Qed.

(** The world after a probe was sent, answered and classified, and its
    command was yielded when the verdict is [SUCCES]. *)
Lemma tallied_probe (b : Z) w (rd : Reader T) (cmd : command) (s : Status)
      (response : list Z) (sw1 sw2 : Z) :
  rank (apdu_of cmd) = b ->
  tallied b w ->
  tallied (b + 1)
    (World rd
       (verdict_entry s :: Returned response sw1 sw2
          :: Send (apdu_of cmd) :: log w)
       (if is_SUCCES s then cmd :: out w else out w)).
Proof.
  intros Hr (H1 & H2 & H3).
  unfold tallied, confirmed in *. cbn [log out].
  rewrite classified_probe. cbn [map filter fst snd].
  repeat split.
  - destruct s; cbn [is_SUCCES map fst]; now rewrite ?H1.
  - constructor; [| exact H2].
    rewrite in_map_iff. intros ([apdu s'] & E & Hin).
    cbn [fst] in E. subst apdu.
    specialize (H3 _ _ Hin). lia.
  - intros apdu s' [E | Hin].
    + inversion E. subst. lia.
    + specialize (H3 _ _ Hin). lia.
Qed.

Lemma instruction_turn_tallied (self : Self T) (c i : Z) w :
  tallied (c * 256 + i) w ->
  tallied (c * 256 + i + 1) (snd (instruction_turn self c emit i w)).
Proof.
  intros H. destruct (mem i BAD_INSTRUCTIONS) eqn:Hi.
  { unfold instruction_turn. rewrite Hi.
    apply tallied_weaken with (c * 256 + i); [lia | exact H]. }
  rewrite instruction_turn_run by exact Hi.
  destruct (transmit T (cardservice self) [c; i; 0; 0] (reader w))
    as [[[[response sw1] sw2] | e] rd'].
  - pose proof (tallied_probe (c * 256 + i) w rd' (c, i, 0, 0)
                  (classify sw1 sw2) response sw1 sw2) as Hp.
    cbn [apdu_of] in Hp. specialize (Hp eq_refl H). cbn zeta.
    destruct (classify sw1 sw2); exact Hp.
  - cbn [snd].
    apply tallied_weaken with (c * 256 + i); [lia |].
    apply (tallied_quiet _ (Send [c; i; 0; 0]) eq_refl w H).
Qed.

Lemma instruction_fuzzer_tallied (self : Self T) (c : Z) w :
  tallied (c * 256) w ->
  tallied ((c + 1) * 256) (snd (_instruction_fuzzer self c emit w)).
Proof.
  intros H. rewrite instruction_fuzzer_turns.
  pose proof (for_each_counted (fun i => tallied (c * 256 + i))
                (instruction_turn self c emit) 256 0) as L.
  cbn beta in L. fold (range 256) in L.
  replace ((c + 1) * 256) with (c * 256 + Z.of_nat (0 + 256)) by lia.
  apply L.
  - intros k w0 _. rewrite Z.add_assoc. apply instruction_turn_tallied.
  - intros k w0. apply tallied_weaken. lia.
  - now rewrite Z.add_0_r.
Qed.

Lemma class_turn_tallied (self : Self T) (c : Z) w :
  tallied (c * 256) w ->
  tallied ((c + 1) * 256)
    (snd (class_turn self (fun c => _instruction_fuzzer self c emit) c w)).
Proof.
  intros H. unfold class_turn, bind.
  assert (Hp : tallied (c * 256) (snd (class_probe self c w))).
  { apply (keeps_class_probe (tallied (c * 256)) (fun _ => True));
      auto using @tallied_external.
    - intros apdu _. now apply tallied_quiet.
    - intros e _ He. now apply tallied_quiet. }
  destruct (class_probe self c w) as [[sw | e] w1]; cbn [snd] in *.
  - destruct (negb _).
    + now apply instruction_fuzzer_tallied.
    + apply tallied_weaken with (c * 256); [lia | exact Hp].
  - apply tallied_weaken with (c * 256); [lia | exact Hp].
Qed.

Lemma fuzz_tallied (self : Self T) (rd : Reader T) :
  tallied (256 * 256) (snd (fuzz self emit (start rd))).
Proof.
  unfold fuzz. rewrite class_fuzzer_turns.
  pose proof (for_each_counted (fun c => tallied (c * 256))
                (class_turn self (fun c => _instruction_fuzzer self c emit))
                256 0) as L.
  cbn beta in L. fold (range 256) in L.
  apply L.
  - intros k w0 _. apply class_turn_tallied.
  - intros k w0. apply tallied_weaken. lia.
  - repeat split; cbn; [constructor | intros ? ? []].
Qed.
End Tally.

Lemma apdu_of_inj (c1 c2 : command) : apdu_of c1 = apdu_of c2 -> c1 = c2.
Proof.
  destruct c1 as [[[a1 b1] p1] q1], c2 as [[[a2 b2] p2] q2]. cbn.
  intros E. now inversion E.
Qed.

(** C5.  What [fuzz] yields, run from an empty log.  The output is, in
    order, the list of the commands whose probe was classified [SUCCES]:
    a command is yielded exactly when its probe was sent, answered and
    classified [SUCCES]; and a command whose probe was given another
    verdict, [FAILED] or [PARAM_FAIL], is nowhere in the output. *)
Theorem fuzz_yields_the_successes :
  forall (T : CardTransceiver) (self : Self T) (rd : Reader T),
    let w := snd (fuzz self emit (start rd)) in
    map apdu_of (out w) = confirmed (log w)
    /\ (forall cmd : command,
           In cmd (out w) <-> In (apdu_of cmd, SUCCES) (classified (log w)))
    /\ (forall (cmd : command) (s : Status),
           In (apdu_of cmd, s) (classified (log w)) ->
           s <> SUCCES -> ~ In cmd (out w)).
Proof.
  intros T self rd w.
  destruct (fuzz_tallied self rd) as (H1 & H2 & _). fold w in H1, H2.
  assert (Hin : forall cmd : command,
             In cmd (out w) <-> In (apdu_of cmd, SUCCES) (classified (log w))).
  { intros cmd. split.
    - intros H. apply (in_map apdu_of) in H. rewrite H1 in H.
      unfold confirmed in H. apply in_map_iff in H.
      destruct H as ([apdu s] & E & H). cbn [fst] in E. subst apdu.
      apply filter_In in H. destruct H as [H Hs].
      destruct s; try discriminate. exact H.
    - intros H.
      assert (Hc : In (apdu_of cmd) (confirmed (log w))).
      { unfold confirmed. apply in_map_iff.
        exists (apdu_of cmd, SUCCES). split; [reflexivity |].
        apply filter_In. split; [exact H | reflexivity]. }
      rewrite <- H1 in Hc. apply in_map_iff in Hc.
      destruct Hc as (cmd' & E & Hc). apply apdu_of_inj in E. now subst. }
  split; [exact H1 | split; [exact Hin |]].
  intros cmd s Hs Hne Hout. apply Hin in Hout.
  (* one command, two verdicts: its probe would have been classified twice *)
  clear - H2 Hs Hne Hout.
  induction (classified (log w)) as [| [apdu s'] l IH]; [destruct Hs |].
  cbn [map fst] in H2. inversion H2 as [| ? ? Hnot Hnd]. subst.
  destruct Hs as [Es | Hs], Hout as [Eo | Hout].
  - congruence.
  - inversion Es. subst. apply Hnot.
    apply (in_map fst) in Hout. exact Hout.
  - inversion Eo. subst. apply Hnot.
    apply (in_map fst) in Hs. exact Hs.
  - now apply IH.
Qed.

(** ** The order of the probes *)

Section Order.
Context {T : CardTransceiver} {Y : Type}.

Lemma for_each_sends_along (f : Z -> list (list Z)) (xs : list Z)
      (body : Z -> M T Y unit) :
  (forall x w, sends_along (f x) (body x) w) ->
  forall w, sends_along (flat_map f xs) (for_each xs body) w.
Proof.
  intros Hb. induction xs as [| x xs IH]; intros w; cbn [flat_map for_each].
  - exists [], []. cbn. rewrite app_nil_r. auto.
  - destruct (Hb x w) as (d1 & r1 & E1 & S1 & O1).
    unfold sends_along, bind.
    destruct (body x w) as [[[] | e] w1]; cbn [fst snd] in *.
    + specialize (O1 eq_refl). subst r1. rewrite app_nil_r in E1. subst d1.
      destruct (IH w1) as (d2 & r2 & E2 & S2 & O2).
      exists (f x ++ d2), r2. repeat split.
      * now rewrite E2, app_assoc.
      * now rewrite S2, S1, app_assoc.
      * exact O2.
    + exists d1, (r1 ++ flat_map f xs). repeat split.
      * now rewrite E1, app_assoc.
      * exact S1.
      * discriminate.
Qed.

(** The tuple a parameter sweep would yield is never built: [ins] is not
    a name of the scope. *)
Lemma load_ins (scope_class scope_instruction p1 p2 sw1 sw2 : Z) :
  load_name (T := T) (Y := Y)
    [("_class", scope_class); ("instruction", scope_instruction);
     ("p1", p1); ("p2", p2); ("sw1", sw1); ("sw2", sw2)] "ins"
  = raise (NameError "ins").
Proof. reflexivity. Qed.

(** One turn of the inner loop of the parameter sweep. *)
Lemma param_turn_run (self : Self T) (c i p1 p2 : Z)
      (yield_ : command -> M T Y unit) (w : world T Y) :
  ('(response, sw1, sw2) <- __send_apdu self c i p1 p2 ;;
   succes <- __get_succes sw1 sw2 ;;
   match succes with
   | SUCCES =>
       let scope := [("_class", c); ("instruction", i);
                     ("p1", p1); ("p2", p2); ("sw1", sw1); ("sw2", sw2)] in
       ins <- load_name scope "ins" ;;
       yield_ (c, ins, p1, p2)
   | _ => ret tt
   end) w
  = match transmit T (cardservice self) [c; i; p1; p2] (reader w) with
    | (Ok (response, sw1, sw2), rd') =>
        let w' :=
          World rd'
                (verdict_entry (classify sw1 sw2)
                   :: Returned response sw1 sw2 :: Send [c; i; p1; p2] :: log w)
                (out w) in
        match classify sw1 sw2 with
        | SUCCES => (Raise (NameError "ins"), w')
        | _ => (Ok tt, w')
        end
    | (Raise e, rd') =>
        (Raise e, World rd' (Send [c; i; p1; p2] :: log w) (out w))
    end.
Proof.
  unfold bind at 1. rewrite send_apdu_run.
  destruct (transmit T (cardservice self) [c; i; p1; p2] (reader w))
    as [[[[response sw1] sw2] | e] rd']; [| reflexivity].
  unfold bind at 1. rewrite get_succes_run. cbn [reader log out].
  destruct (classify sw1 sw2); reflexivity.
Qed.

(** A parameter sweep tries the pairs in the order of its loops, stops at
    the first probe that raises or is classified [SUCCES], and has tried
    them all when it returns.  It never yields. *)
Lemma param_fuzzer_order (self : Self T) (c i : Z)
      (yield_ : command -> M T Y unit) (w : world T Y) :
  sends_along (parameter_probes c i) (_param_fuzzer self c i yield_) w
  /\ out (snd (_param_fuzzer self c i yield_ w)) = out w.
Proof.
  split.
  - unfold _param_fuzzer, parameter_probes.
    apply for_each_sends_along. intros p1 w1.
    replace (map (fun p2 => [c; i; p1; p2]) (range 256))
      with (flat_map (fun p2 => [[c; i; p1; p2]]) (range 256))
      by (induction (range 256) as [| x l IH]; cbn; congruence).
    apply for_each_sends_along. intros p2 w2.
    unfold sends_along. rewrite param_turn_run.
    destruct (transmit T (cardservice self) [c; i; p1; p2] (reader w2))
      as [[[[response sw1] sw2] | e] rd'].
    + exists [[c; i; p1; p2]], []. cbn zeta.
      destruct (classify sw1 sw2); cbn; auto.
    + exists [[c; i; p1; p2]], []. cbn. auto.
  - assert (K : keeps (fun w' => out w' = out w)
                      (_param_fuzzer self c i yield_)).
    { unfold _param_fuzzer. apply keeps_for_each.
      intros p1 _. apply keeps_for_each. intros p2 _ w2 H2.
      rewrite param_turn_run.
      destruct (transmit T (cardservice self) [c; i; p1; p2] (reader w2))
        as [[[[response sw1] sw2] | e] rd']; [| exact H2].
      cbn zeta. destruct (classify sw1 sw2); exact H2. }
    exact (K w eq_refl).
Qed.

End Order.

(** An instruction sweep probes the instructions in ascending order, the
    blacklist skipped, and has probed them all when it returns. *)
Lemma instruction_fuzzer_order {T : CardTransceiver} (self : Self T) (c : Z)
      (w : world T command) :
  sends_along (instruction_probes c) (_instruction_fuzzer self c emit) w.
Proof.
  rewrite instruction_fuzzer_turns. unfold instruction_probes.
  apply for_each_sends_along. intros i w1. unfold sends_along.
  destruct (mem i BAD_INSTRUCTIONS) eqn:Hi.
  { unfold instruction_turn. rewrite Hi. exists [], []. cbn.
    rewrite app_nil_r. auto. }
  rewrite instruction_turn_run by exact Hi.
  destruct (transmit T (cardservice self) [c; i; 0; 0] (reader w1))
    as [[[[response sw1] sw2] | e] rd'].
  - exists [[c; i; 0; 0]], []. cbn zeta.
    destruct (classify sw1 sw2); cbn; auto.
  - exists [[c; i; 0; 0]], []. cbn. auto.
Qed.

(** ** Response data *)

Section Alike.
Context {T1 T2 : CardTransceiver} {Y : Type}.
Variable R : Reader T1 -> Reader T2 -> Prop.
Variable self1 : Self T1.
Variable self2 : Self T2.
Hypothesis answers : same_status R self1 self2.

Lemma sim_ret {A1 A2} (V : A1 -> A2 -> Prop) (a1 : A1) (a2 : A2) :
  V a1 a2 -> sim (Y := Y) R V (ret a1) (ret a2).
Proof. intros H w1 w2 Hw. cbn. auto. Qed.

Lemma sim_bind {A1 A2 B1 B2} (V : A1 -> A2 -> Prop) (W : B1 -> B2 -> Prop)
      (m1 : M T1 Y A1) (m2 : M T2 Y A2)
      (k1 : A1 -> M T1 Y B1) (k2 : A2 -> M T2 Y B2) :
  sim R V m1 m2 ->
  (forall a1 a2, V a1 a2 -> sim R W (k1 a1) (k2 a2)) ->
  sim R W (bind m1 k1) (bind m2 k2).
Proof.
  intros Hm Hk w1 w2 Hw. specialize (Hm w1 w2 Hw). unfold bind.
  destruct (m1 w1) as [[a1 | e1] w1'], (m2 w2) as [[a2 | e2] w2'];
    try contradiction.
  - destruct Hm as [Hv Hw']. now apply Hk.
  - exact Hm.
Qed.

Lemma sim_emit (y : Y) : sim R anything (emit y) (emit y).
Proof.
  intros w1 w2 [H1 H2]. unfold emit, alike. cbn [reader out].
  split; [exact I | split; [exact H1 | now rewrite H2]].
Qed.

Lemma sim_for_each (xs : list Z)
      (body1 : Z -> M T1 Y unit) (body2 : Z -> M T2 Y unit) :
  (forall x, sim R anything (body1 x) (body2 x)) ->
  sim R anything (for_each xs body1) (for_each xs body2).
Proof.
  intros Hb. induction xs as [| x xs IH]; cbn [for_each].
  - apply sim_ret; exact I.
  - apply sim_bind with (V := anything); [apply Hb | intros _ _ _; exact IH].
Qed.

Lemma sim_class_probe (c : Z) :
  sim (Y := Y) R eq (class_probe self1 c) (class_probe self2 c).
Proof.
  intros w1 w2 [HR Ho].
  destruct (class_probe_run self1 c w1) as (A1 & A2 & A3 & _).
  destruct (class_probe_run self2 c w2) as (B1 & B2 & B3 & _).
  specialize (answers [c; 0; 0; 0] _ _ HR).
  unfold class_answer in A1, B1.
  destruct (class_probe self1 c w1) as [[sw | e] w1'];
    destruct (class_probe self2 c w2) as [[sw' | e'] w2'];
    cbn [fst snd] in *; try discriminate.
  unfold alike. rewrite A2, A3, B2, B3.
  destruct (transmit T1 (cardservice self1) [c; 0; 0; 0] (reader w1))
    as [[[[r1 a1] b1] | e1] rd1'];
    destruct (transmit T2 (cardservice self2) [c; 0; 0; 0] (reader w2))
    as [[[[r2 a2] b2] | e2] rd2'];
    cbn [fst snd] in *; try contradiction.
  - destruct answers as (-> & -> & HR'). split; [congruence | auto].
  - split; [congruence | auto].
Qed.

Lemma sim_class_fuzzer (yield1 : Z -> M T1 Y unit) (yield2 : Z -> M T2 Y unit) :
  (forall c, sim R anything (yield1 c) (yield2 c)) ->
  sim R anything (_class_fuzzer self1 yield1) (_class_fuzzer self2 yield2).
Proof.
  intros Hy. rewrite !class_fuzzer_turns. apply sim_for_each. intros c.
  unfold class_turn.
  apply sim_bind with (V := eq); [apply sim_class_probe |].
  intros sw ? <-. destruct (negb _); [apply Hy | apply sim_ret; exact I].
Qed.

Lemma sim_instruction_turn (c i : Z)
      (yield1 : command -> M T1 Y unit) (yield2 : command -> M T2 Y unit) :
  (forall y, sim R anything (yield1 y) (yield2 y)) ->
  sim R anything (instruction_turn self1 c yield1 i)
                 (instruction_turn self2 c yield2 i).
Proof.
  intros Hy. destruct (mem i BAD_INSTRUCTIONS) eqn:Hi.
  { unfold instruction_turn. rewrite Hi. apply sim_ret; exact I. }
  intros w1 w2 [HR Ho]. rewrite !instruction_turn_run by exact Hi.
  specialize (answers [c; i; 0; 0] _ _ HR).
  destruct (transmit T1 (cardservice self1) [c; i; 0; 0] (reader w1))
    as [[[[r1 a1] b1] | e1] rd1'];
    destruct (transmit T2 (cardservice self2) [c; i; 0; 0] (reader w2))
    as [[[[r2 a2] b2] | e2] rd2'];
    try contradiction.
  - destruct answers as (-> & -> & HR'). cbn zeta.
    destruct (classify a2 b2).
    + apply Hy. split; assumption.
    + repeat split; assumption.
    + split; assumption.
  - split; assumption.
Qed.

Lemma sim_instruction_fuzzer (c : Z)
      (yield1 : command -> M T1 Y unit) (yield2 : command -> M T2 Y unit) :
  (forall y, sim R anything (yield1 y) (yield2 y)) ->
  sim R anything (_instruction_fuzzer self1 c yield1)
                 (_instruction_fuzzer self2 c yield2).
Proof.
  intros Hy. rewrite !instruction_fuzzer_turns. apply sim_for_each.
  intros i. now apply sim_instruction_turn.
Qed.

Lemma sim_fuzz (yield1 : command -> M T1 Y unit)
      (yield2 : command -> M T2 Y unit) :
  (forall y, sim R anything (yield1 y) (yield2 y)) ->
  sim R anything (fuzz self1 yield1) (fuzz self2 yield2).
Proof.
  intros Hy. unfold fuzz. apply sim_class_fuzzer. intros c.
  apply sim_instruction_fuzzer. exact Hy.
Qed.
End Alike.

(** C10.  The output of [fuzz] does not depend on response data.  Take two
    readers that answer every command with the same status pair (or both
    raise), from related states on, the data of their responses being
    whatever they are: the two runs of [fuzz] yield the same commands in
    the same order, and end the same way. *)
Theorem fuzz_ignores_response_data :
  forall (T1 T2 : CardTransceiver) (self1 : Self T1) (self2 : Self T2)
         (R : Reader T1 -> Reader T2 -> Prop)
         (rd1 : Reader T1) (rd2 : Reader T2),
    same_status R self1 self2 ->
    R rd1 rd2 ->
    let run1 := fuzz self1 emit (start rd1) in
    let run2 := fuzz self2 emit (start rd2) in
    out (snd run1) = out (snd run2)
    /\ (fst run1 = Ok tt <-> fst run2 = Ok tt).
Proof.
  intros T1 T2 self1 self2 R rd1 rd2 Hs HR run1 run2.
  assert (Hw : alike (Y := command) R (start rd1) (start rd2))
    by (split; [exact HR | reflexivity]).
  pose proof (sim_fuzz R self1 self2 Hs emit emit (sim_emit R) _ _ Hw) as H.
  fold run1 run2 in H.
  destruct run1 as [[[] | e1] w1], run2 as [[[] | e2] w2];
    try contradiction; cbn [fst snd].
  - destruct H as [_ [_ Ho]]. split; [exact Ho | tauto].
  - destruct H as [_ Ho]. split; [exact Ho |]. split; discriminate.
Qed.

(** ** Connection *)

(** C8.  No card, no probe.  The constructor first opens the log file and
    then waits for a card.  When the log file was opened and the wait that
    follows raises the timeout exception, [__init__] raises it to its
    caller and no object is built; nothing was transmitted, and the
    environment is as the wait left it: there was no connection and no
    transmission.  With the default timeout of 30 and the default log file
    this is what [main] meets: it raises the same exception before [fuzz]
    is entered, with nothing transmitted and nothing yielded. *)
Theorem no_card_no_probe :
  forall (T : CardTransceiver) (timeout : Z) (log_file : string)
         (rd rd0 rd' : Reader T),
    basicConfig T log_file rd = (Ok tt, rd0) ->
    waitforcard T timeout rd0 = (Raise CardRequestTimeoutException, rd') ->
    let construction := __init__ (Y := command) timeout log_file (start rd) in
    fst construction = Raise CardRequestTimeoutException
    /\ sends (log (snd construction)) = []
    /\ reader (snd construction) = rd'
    /\ (timeout = 30 -> log_file = "smart_fuzzer.log" ->
        let run := main (start rd) in
        fst run = Raise CardRequestTimeoutException
        /\ sends (log (snd run)) = []
        /\ out (snd run) = []
        /\ reader (snd run) = rd').
Proof.
  intros T timeout log_file rd rd0 rd' H0 H construction.
  assert (E : __init__ (Y := command) timeout log_file (start rd)
              = (Raise CardRequestTimeoutException, World rd' [] [])).
  { unfold __init__, __get_card, bind, external, start.
    cbn [reader log out]. rewrite H0. cbn [reader log out]. now rewrite H. }
  unfold construction. rewrite E. cbn [fst snd log sends reader].
  split; [reflexivity | split; [reflexivity | split; [reflexivity |]]].
  intros Ht Hf. subst timeout log_file.
  unfold main, bind. rewrite E. cbn. auto.
Qed.

Lemma no_card_no_probe_witness :
  let run := @main journal (start (T := journal) (@nil string)) in
  basicConfig journal "smart_fuzzer.log" (@nil string)
  = (Ok tt, ["basicConfig"])
  /\ waitforcard journal 30 ["basicConfig"]
     = (Raise CardRequestTimeoutException, ["waitforcard"; "basicConfig"])
  /\ fst run = Raise CardRequestTimeoutException
  /\ sends (log (snd run)) = []
  /\ reader (snd run) = ["waitforcard"; "basicConfig"].
Proof.
  cbv zeta. split; [reflexivity | split; [reflexivity |]].
  pose proof (no_card_no_probe journal 30 "smart_fuzzer.log" (@nil string)
                ["basicConfig"] ["waitforcard"; "basicConfig"]
                eq_refl eq_refl) as H.
  cbv zeta in H. destruct H as (_ & _ & _ & H).
  destruct (H eq_refl eq_refl) as (H1 & H2 & _ & H4).
  split; [exact H1 | split; [exact H2 | exact H4]].
Defined.

Lemma fuzz_ignores_response_data_witness :
  same_status (fun _ _ => True)
              (Fuzzer (T := agreeable) 30 tt)
              (Fuzzer (T := talkative) 30 tt)
  /\ out (snd (fuzz (Fuzzer (T := agreeable) 30 tt) emit
                  (start (T := agreeable) tt)))
     = out (snd (fuzz (Fuzzer (T := talkative) 30 tt) emit
                    (start (T := talkative) tt))).
Proof.
  assert (H : same_status (fun _ _ => True)
                (Fuzzer (T := agreeable) 30 tt)
                (Fuzzer (T := talkative) 30 tt)).
  { intros apdu rd1 rd2 _. cbn. auto. }
  split; [exact H |].
  exact (proj1 (fuzz_ignores_response_data agreeable talkative _ _
                  (fun _ _ => True) tt tt H I)).
Defined.

(** ** The scenarios of the specification, run *)

(** Scenario A, run by [main]: the run comes to its end and yields the one
    command (0x80, 0x00, 0x00, 0x00). *)
Example scenario_A_yields_one_command :
  let run := @main scenario_A (start (T := scenario_A) tt) in
  fst run = Ok tt
  /\ out (snd run) = [(0x80, 0x00, 0x00, 0x00)]
  /\ sends (log (snd run))
     = map (fun c => [c; 0; 0; 0]) (range 129)
       ++ map (fun i => [0x80; i; 0; 0])
              (filter (fun i => negb (mem i BAD_INSTRUCTIONS)) (range 256))
       ++ map (fun c => [c; 0; 0; 0]) (map (Z.add 129) (range 127)).
Proof. vm_compute. repeat split. Qed.

(** C1.  Scenario B, run by [main].  The card answers (0x6A, 0x86) to
    [0x80, 0x10, 0, 0], which is classified [PARAM_FAIL], and would answer
    (0x90, 0x00), a [SUCCES], to [0x80, 0x10, 1, 2].  The run does not
    reach the parameter sweep: looking up [param_fuzzer] raises
    AttributeError, the last command sent is [0x80, 0x10, 0, 0], and
    nothing is yielded. *)
Theorem scenario_B_stops_at_the_escalation :
  let run := @main scenario_B (start (T := scenario_B) tt) in
  fst (transmit scenario_B tt [0x80; 0x10; 0x00; 0x00] tt)
  = Ok ([], 0x6A, 0x86)
  /\ classify 0x6A 0x86 = PARAM_FAIL
  /\ fst (transmit scenario_B tt [0x80; 0x10; 0x01; 0x02] tt)
     = Ok ([], 0x90, 0x00)
  /\ classify 0x90 0x00 = SUCCES
  /\ fst run = Raise (AttributeError "param_fuzzer")
  /\ out (snd run) = []
  /\ sends (log (snd run))
     = map (fun c => [c; 0; 0; 0]) (range 129)
       ++ map (fun i => [0x80; i; 0; 0]) (range 17).
Proof. vm_compute. repeat split. Qed.

(** C3.  Scenario D, run by [main].  The transmission of [0x80, 0x05, 0, 0]
    raises, and [0x80, 0x06, 0, 0] would be answered (0x90, 0x00), a
    [SUCCES].  The exception is not caught in the instruction sweep: the
    run ends with it, the last command sent is [0x80, 0x05, 0, 0], and
    instruction 0x06 is neither probed nor yielded. *)
Theorem scenario_D_aborts_the_sweep :
  let run := @main scenario_D (start (T := scenario_D) tt) in
  fst (transmit scenario_D tt [0x80; 0x05; 0x00; 0x00] tt)
  = Raise (CardConnectionException "protocol error")
  /\ fst (transmit scenario_D tt [0x80; 0x06; 0x00; 0x00] tt)
     = Ok ([], 0x90, 0x00)
  /\ classify 0x90 0x00 = SUCCES
  /\ fst run = Raise (CardConnectionException "protocol error")
  /\ out (snd run) = []
  /\ sends (log (snd run))
     = map (fun c => [c; 0; 0; 0]) (range 129)
       ++ map (fun i => [0x80; i; 0; 0]) (range 6).
Proof. vm_compute. repeat split. Qed.

(** C7.  The parameter sweep on a card that answers (0x90, 0x00) to every
    command.  The first probe, p1 = p2 = 0, is classified [SUCCES]; building
    the tuple to yield reads the name [ins], which is not bound, and the
    sweep ends there with NameError: one of the 65,536 pairs was tried and
    nothing was yielded. *)
Theorem param_fuzzer_stops_at_first_success :
  let run :=
    _param_fuzzer (Fuzzer (T := agreeable) 30 tt) 0x80 0x10 emit
                  (start (T := agreeable) tt) in
  fst run = Raise (NameError "ins")
  /\ out (snd run) = []
  /\ sends (log (snd run)) = [[0x80; 0x10; 0x00; 0x00]]
  /\ classified (log (snd run)) = [([0x80; 0x10; 0x00; 0x00], SUCCES)].
Proof. vm_compute. repeat split. Qed.

(** ** More on the loops *)

Section MoreRules.
Context {T : CardTransceiver} {Y : Type}.

(** A loop only depends on what its turns do. *)
Lemma for_each_ext (xs : list Z) (body1 body2 : Z -> M T Y unit) :
  (forall x w, body1 x w = body2 x w) ->
  forall w, for_each xs body1 w = for_each xs body2 w.
Proof.
  intros Hb. induction xs as [| x xs IH]; intros w; cbn [for_each].
  - reflexivity.
  - unfold bind. rewrite Hb. destruct (body2 x w) as [[[] | e] w1]; auto.
Qed.

(** A loop with a condition [P] between its turns and a condition [Q] on
    the world an exception leaves behind. *)
Lemma for_each_ends (P : world T Y -> Prop) (Q : exn -> world T Y -> Prop)
      (xs : list Z) (body : Z -> M T Y unit) :
  (forall x w, In x xs -> P w ->
               match body x w with
               | (Ok _, w') => P w'
               | (Raise e, w') => Q e w'
               end) ->
  forall w, P w ->
            match for_each xs body w with
            | (Ok _, w') => P w'
            | (Raise e, w') => Q e w'
            end.
Proof.
  induction xs as [| x xs IH]; intros Hb w Hw; cbn [for_each].
  - exact Hw.
  - unfold bind. specialize (Hb x w (or_introl eq_refl) Hw) as H1.
    destruct (body x w) as [[[] | e] w1].
    + apply IH; [| exact H1]. intros y w0 Hy. apply Hb. now right.
    + exact H1.
Qed.

(** A class probe, step by step: the command is logged, then the answer,
    or the note of the handler that caught the exception; the probe
    itself never raises. *)
Lemma class_probe_log (self : Self T) (c : Z) (w : world T Y) :
  class_probe self c w
  = match transmit T (cardservice self) [c; 0; 0; 0] (reader w) with
    | (Ok (response, sw1, sw2), rd') =>
        (Ok (sw1, sw2),
         World rd' (Returned response sw1 sw2 :: Send [c; 0; 0; 0] :: log w)
               (out w))
    | (Raise e, rd') =>
        (Ok (0x6E, 0x00),
         World rd'
               (match e with
                | SWException _ => GotSWException e
                | _ => WentWrong e
                end :: Send [c; 0; 0; 0] :: log w)
               (out w))
    end.
Proof.
  unfold class_probe, first, UNSUPPORTED_RESP. unfold bind at 1, ret at 1.
  unfold try_except, bind at 1. rewrite send_apdu_run.
  destruct (transmit T (cardservice self) [c; 0; 0; 0] (reader w))
    as [[[[response sw1] sw2] | e] rd']; [reflexivity |].
  destruct e; reflexivity.
Qed.
End MoreRules.

Lemma range_NoDup (n : nat) : NoDup (range n).
Proof.
  unfold range. apply NoDup_map_NoDup_ForallPairs; [| apply seq_NoDup].
  intros x y _ _ E. now apply Nat2Z.inj.
Qed.

Lemma NoDup_flat_map {A B} (f : A -> list B) (xs : list A) :
  NoDup xs ->
  (forall x, In x xs -> NoDup (f x)) ->
  (forall x y b, In x xs -> In y xs -> In b (f x) -> In b (f y) -> x = y) ->
  NoDup (flat_map f xs).
Proof.
  induction xs as [| x xs IH]; intros Hnd Hf Hdis; cbn [flat_map].
  - constructor.
  - inversion Hnd as [| ? ? Hx Hxs]; subst.
    apply NoDup_app.
    + apply Hf. now left.
    + apply IH; [exact Hxs | |].
      * intros y Hy. apply Hf. now right.
      * intros y z b Hy Hz. apply Hdis; now right.
    + intros b Hb Hb'. apply in_flat_map in Hb'. destruct Hb' as (y & Hy & Hby).
      apply Hx. rewrite (Hdis x y b); auto; [now left | now right].
Qed.

Lemma length_flat_map_const {A B} (f : A -> list B) (xs : list A) (n : nat) :
  (forall x, List.length (f x) = n) ->
  List.length (flat_map f xs) = (List.length xs * n)%nat.
Proof.
  intros Hf. induction xs as [| x xs IH]; cbn [flat_map List.length].
  - reflexivity.
  - rewrite length_app, Hf, IH. lia.
Qed.

Lemma length_range (n : nat) : List.length (range n) = n.
Proof. unfold range. now rewrite length_map, length_seq. Qed.

(** X1.  The order of a parameter sweep, on any reader and under any
    consumer.  The commands it transmits are a first part of the 65,536
    probes [c, i, p1, p2] taken with p1 outside and p2 inside, both
    ascending; no probe is in that list twice; and when the sweep returns
    it has transmitted the whole list. *)
Theorem param_sweep_in_order :
  forall (T : CardTransceiver) (Y : Type) (self : Self T) (c i : Z)
         (yield_ : command -> M T Y unit) (w : world T Y),
    sends_along (parameter_probes c i) (_param_fuzzer self c i yield_) w
    /\ List.length (parameter_probes c i) = (256 * 256)%nat
    /\ NoDup (parameter_probes c i).
Proof.
  intros T Y self c i yield_ w. split; [| split].
  - apply param_fuzzer_order.
  - unfold parameter_probes.
    rewrite (length_flat_map_const _ _ 256), length_range; [reflexivity |].
    intros p1. now rewrite length_map, length_range.
  - unfold parameter_probes. apply NoDup_flat_map.
    + apply range_NoDup.
    + intros p1 _. apply NoDup_map_NoDup_ForallPairs; [| apply range_NoDup].
      intros x y _ _ E. now inversion E.
    + intros p1 p1' b _ _ H1 H2.
      apply in_map_iff in H1. destruct H1 as (p2 & <- & _).
      apply in_map_iff in H2. destruct H2 as (p2' & E & _).
      now inversion E.
Qed.

(** X2.  A parameter sweep never yields, on any reader.  Its consumer is
    never consulted: the run is the same under any consumer, and the
    output stays empty.  A probe classified [SUCCES] is the last thing the
    sweep does: the verdict is the newest entry of the log and the sweep
    ends with NameError on [ins]. *)
Theorem param_sweep_never_yields :
  forall (T : CardTransceiver) (self : Self T) (c i : Z) (rd : Reader T)
         (yield_ : command -> M T command unit),
    let run := _param_fuzzer self c i yield_ (start rd) in
    run = _param_fuzzer self c i emit (start rd)
    /\ out (snd run) = []
    /\ (forall apdu : list Z,
           In (apdu, SUCCES) (classified (log (snd run))) ->
           fst run = Raise (NameError "ins")
           /\ exists l, log (snd run) = CommandSucces :: l).
Proof.
  intros T self c i rd yield_ run. split; [| split].
  - unfold run, _param_fuzzer. apply for_each_ext. intros p1 w.
    apply for_each_ext. intros p2 w'. now rewrite !param_turn_run.
  - exact (proj2 (param_fuzzer_order self c i yield_ (start rd))).
  - set (P := fun w : world T command =>
                forall apdu, ~ In (apdu, SUCCES) (classified (log w))).
    set (Q := fun (e : exn) (w : world T command) =>
                P w \/ (e = NameError "ins"
                        /\ exists l, log w = CommandSucces :: l)).
    assert (H : match run with
                | (Ok _, w') => P w'
                | (Raise e, w') => Q e w'
                end).
    { unfold run, _param_fuzzer.
      apply for_each_ends; [| intros apdu []].
      intros p1 w _ Hw. apply for_each_ends; [| exact Hw].
      clear w Hw. intros p2 w _ Hw. rewrite param_turn_run.
      destruct (transmit T (cardservice self) [c; i; p1; p2] (reader w))
        as [[[[response sw1] sw2] | e] rd'].
      - cbn zeta. destruct (classify sw1 sw2) eqn:Hs.
        + right. split; [reflexivity |]. cbn [log verdict_entry]. eauto.
        + intros apdu. cbn [log].
          change CommandFailed with (verdict_entry FAILED).
          rewrite classified_probe. intros [E | Hin]; [discriminate |].
          exact (Hw apdu Hin).
        + intros apdu. cbn [log].
          change PartialSucces with (verdict_entry PARAM_FAIL).
          rewrite classified_probe. intros [E | Hin]; [discriminate |].
          exact (Hw apdu Hin).
      - left. intros apdu. cbn [log].
        rewrite classified_quiet by reflexivity. apply Hw. }
    intros apdu Hin. destruct run as [[[] | e] w']; cbn [fst snd] in *.
    + exfalso. exact (H apdu Hin).
    + destruct H as [H | [-> H]]; [exfalso; exact (H apdu Hin) |].
      split; [reflexivity | exact H].
Qed.

(** X3.  The order of an instruction sweep, on any reader.  The commands it
    transmits are a first part of the probes [c, i, 0, 0] for i ascending
    over 0..255 without 0x20 and 0x24, 254 probes in all, and the whole
    list when the sweep returns. *)
Theorem instruction_sweep_in_order :
  forall (T : CardTransceiver) (self : Self T) (c : Z) (w : world T command),
    sends_along (instruction_probes c) (_instruction_fuzzer self c emit) w
    /\ List.length (instruction_probes c) = 254%nat
    /\ (forall apdu : list Z,
           In apdu (instruction_probes c)
           <-> exists i : Z,
                 apdu = [c; i; 0; 0] /\ 0 <= i <= 255
                 /\ ~ In i [0x20; 0x24]).
Proof.
  intros T self c w. split; [| split].
  - apply instruction_fuzzer_order.
  - reflexivity.
  - intros apdu. unfold instruction_probes. rewrite in_flat_map. split.
    + intros (i & Hi & H). apply In_range in Hi.
      destruct (mem_spec i BAD_INSTRUCTIONS) as [Hb | Hb]; [destruct H |].
      destruct H as [<- | []]. exists i. split; [reflexivity |].
      split; [lia | exact Hb].
    + intros (i & -> & Hi & Hb). exists i. split; [apply In_range; lia |].
      destruct (mem_spec i BAD_INSTRUCTIONS) as [Hb' | _];
        [contradiction | now left].
Qed.

(** ** The output of [fuzz] *)

Section Output.
Context {T : CardTransceiver}.
Variable I : Z -> list command -> Prop.
Hypothesis I_later : forall b l, I b l -> I (b + 1) l.
Hypothesis I_yield :
  forall c i l,
    0 <= c < 256 -> 0 <= i < 256 -> ~ In i BAD_INSTRUCTIONS ->
    I (c * 256 + i) l -> I (c * 256 + i + 1) ((c, i, 0, 0) :: l).

Lemma I_much_later (n : nat) (b : Z) (l : list command) :
  I b l -> I (b + Z.of_nat n) l.
Proof.
  induction n as [| n IH]; intros H.
  - now rewrite Z.add_0_r.
  - replace (b + Z.of_nat (S n)) with (b + Z.of_nat n + 1) by lia.
    apply I_later, IH, H.
Qed.

Lemma instruction_turn_output (self : Self T) (c i : Z) (w : world T command) :
  0 <= c < 256 -> 0 <= i < 256 ->
  I (c * 256 + i) (out w) ->
  I (c * 256 + i + 1) (out (snd (instruction_turn self c emit i w))).
Proof.
  intros Hc Hi H. destruct (mem_spec i BAD_INSTRUCTIONS) as [Hb | Hb].
  { unfold instruction_turn.
    destruct (mem i BAD_INSTRUCTIONS) eqn:E; [now apply I_later |].
    apply mem_In in Hb. congruence. }
  rewrite instruction_turn_run
    by (destruct (mem_spec i BAD_INSTRUCTIONS); [contradiction | reflexivity]).
  destruct (transmit T (cardservice self) [c; i; 0; 0] (reader w))
    as [[[[response sw1] sw2] | e] rd']; [| now apply I_later].
  cbn zeta. destruct (classify sw1 sw2); cbn [snd out emit].
  - now apply I_yield.
  - now apply I_later.
  - now apply I_later.
Qed.

Lemma class_turn_output (self : Self T) (c : Z) (w : world T command) :
  0 <= c < 256 ->
  I (c * 256) (out w) ->
  I ((c + 1) * 256)
    (out (snd (class_turn self
                 (fun c => _instruction_fuzzer self c emit) c w))).
Proof.
  intros Hc H. unfold class_turn, bind. rewrite class_probe_log.
  assert (Hskip : I ((c + 1) * 256) (out w)).
  { replace ((c + 1) * 256) with (c * 256 + Z.of_nat 256) by lia.
    now apply I_much_later. }
  assert (Hsweep : forall w1 : world T command,
             out w1 = out w ->
             I ((c + 1) * 256)
               (out (snd (_instruction_fuzzer self c emit w1)))).
  { intros w1 E. rewrite instruction_fuzzer_turns.
    pose proof (for_each_counted (fun i w' => I (c * 256 + i) (out w'))
                  (instruction_turn self c emit) 256 0) as L.
    cbn beta in L. fold (range 256) in L.
    replace ((c + 1) * 256) with (c * 256 + Z.of_nat (0 + 256)) by lia.
    apply L.
    - intros k w0 Hk. rewrite Z.add_assoc.
      apply instruction_turn_output; [exact Hc | lia].
    - intros k w0 H0. rewrite Z.add_assoc. now apply I_later.
    - rewrite Z.add_0_r, E. exact H. }
  destruct (transmit T (cardservice self) [c; 0; 0; 0] (reader w))
    as [[[[response sw1] sw2] | e] rd'];
    destruct (negb _); try exact Hskip; now apply Hsweep.
Qed.

Lemma fuzz_output (self : Self T) (rd : Reader T) :
  I 0 [] -> I (256 * 256) (out (snd (fuzz self emit (start rd)))).
Proof.
  intros H0. unfold fuzz. rewrite class_fuzzer_turns.
  pose proof (for_each_counted (fun c w' => I (c * 256) (out w'))
                (class_turn self (fun c => _instruction_fuzzer self c emit))
                256 0) as L.
  cbn beta in L. fold (range 256) in L.
  apply L.
  - intros k w0 Hk. apply class_turn_output. lia.
  - intros k w0 H. replace ((k + 1) * 256) with (k * 256 + Z.of_nat 256) by lia.
    now apply I_much_later.
  - exact H0.
Qed.
End Output.

(** X4.  What [fuzz] can yield, on any reader.  Every command of the
    output is a zero-parameter command [(c, i, 0, 0)] with c and i in
    0..255 and i neither 0x20 nor 0x24. *)
Theorem fuzz_yields_zero_parameter_commands :
  forall (T : CardTransceiver) (self : Self T) (rd : Reader T),
    Forall zero_parameter (out (snd (fuzz self emit (start rd)))).
Proof.
  intros T self rd.
  apply (fuzz_output (fun _ l => Forall zero_parameter l)).
  - auto.
  - intros c i l Hc Hi Hb H. constructor; [| exact H].
    exists c, i. split; [reflexivity |]. split; [lia |]. split; [lia |].
    exact Hb.
  - constructor.
Qed.

Lemma StronglySorted_snoc {A} (R : A -> A -> Prop) (l : list A) (x : A) :
  StronglySorted R l -> Forall (fun y => R y x) l ->
  StronglySorted R (l ++ [x]).
Proof.
  induction l as [| a l IH]; intros Hs Hf; cbn [app].
  - constructor; constructor.
  - inversion Hs; subst. inversion Hf; subst.
    constructor; [now apply IH |].
    apply Forall_app. split; [assumption | now constructor].
Qed.

(** X5.  The order of the output of [fuzz], on any reader.  Read from the
    first command yielded to the last, the output is strictly ascending:
    every command comes before all the later ones, by class and then by
    instruction.  No command is yielded twice. *)
Theorem fuzz_yields_in_ascending_order :
  forall (T : CardTransceiver) (self : Self T) (rd : Reader T),
    let yielded := rev (out (snd (fuzz self emit (start rd)))) in
    StronglySorted precedes yielded /\ NoDup yielded.
Proof.
  intros T self rd yielded.
  assert (H : StronglySorted precedes yielded).
  { unfold yielded.
    refine (proj1 (fuzz_output
              (fun b l =>
                 StronglySorted precedes (rev l)
                 /\ Forall (fun x => class_of x * 256 + ins_of x < b
                                     /\ 0 <= ins_of x < 256) l)
              _ _ self rd _)).
    - intros b l [H1 H2]. split; [exact H1 |].
      eapply Forall_impl; [| exact H2]. cbn beta. intros x Hx. lia.
    - intros c i l Hc Hi _ [H1 H2]. split.
      + cbn [rev]. apply StronglySorted_snoc; [exact H1 |].
        apply Forall_rev. eapply Forall_impl; [| exact H2].
        intros x [Hx Hr]. unfold precedes, class_of, ins_of in *.
        cbn [fst snd]. lia.
      + constructor.
        * unfold class_of, ins_of. cbn [fst snd]. lia.
        * eapply Forall_impl; [| exact H2]. cbn beta. intros x Hx. lia.
    - split; constructor. }
  split; [exact H |].
  clear - H. induction H as [| x l Hs IH Hf]; constructor; [| exact IH].
  intros Hin. rewrite Forall_forall in Hf. specialize (Hf x Hin).
  unfold precedes in Hf. lia.
Qed.

(** ** How a run of [fuzz] ends, and what it leaves in the log *)

Lemma classify_PARAM_FAIL (sw1 sw2 : Z) :
  classify sw1 sw2 = PARAM_FAIL -> sw1 = 0x6a /\ sw2 = 0x86.
Proof.
  unfold classify.
  destruct (mem sw1 SUCCESS_LIST_RESP);
    destruct (mem_pair_spec (sw1, sw2) SUCCESS_BAD_PARAM_RESP) as [H | H];
    cbn [andb negb];
    try destruct (mem_pair (sw1, sw2) SUCCESS_FAIL_RESP);
    try discriminate; intros _;
    destruct H as [E | []]; now inversion E.
Qed.

(** Construction, step by step. *)
Lemma init_run {T Y} (timeout : Z) (log_file : string) (w : world T Y) :
  __init__ timeout log_file w
  = match basicConfig T log_file (reader w) with
    | (Ok _, rd0) =>
        match waitforcard T timeout rd0 with
        | (Ok cardservice, rd1) =>
            match connect T cardservice rd1 with
            | (Ok _, rd2) =>
                (Ok (Fuzzer timeout cardservice), World rd2 (log w) (out w))
            | (Raise e, rd2) => (Raise e, World rd2 (log w) (out w))
            end
        | (Raise e, rd1) => (Raise e, World rd1 (log w) (out w))
        end
    | (Raise e, rd0) => (Raise e, World rd0 (log w) (out w))
    end.
Proof.
  unfold __init__, __get_card, bind, external.
  destruct (basicConfig T log_file (reader w)) as [[[] | e] rd0];
    [| reflexivity].
  cbn [reader log out].
  destruct (waitforcard T timeout rd0) as [[svc | e] rd1];
    [| reflexivity].
  cbn [reader log out].
  destruct (connect T svc rd1) as [[[] | e] rd2]; reflexivity.
Qed.

Section Endings.
Context {T : CardTransceiver}.
Implicit Type w : world T command.

Lemma instruction_turn_ends (self : Self T) (c i : Z) w :
  unescalated w ->
  match instruction_turn self c emit i w with
  | (Ok _, w') => unescalated w'
  | (Raise e, w') => stopped e w'
  end.
Proof.
  intros Hw. destruct (mem i BAD_INSTRUCTIONS) eqn:Hi.
  { unfold instruction_turn. rewrite Hi. exact Hw. }
  rewrite instruction_turn_run by exact Hi.
  destruct (transmit T (cardservice self) [c; i; 0; 0] (reader w))
    as [[[[response sw1] sw2] | e] rd'].
  - cbn zeta. destruct (classify sw1 sw2) eqn:Hs.
    + unfold unescalated, emit in *. cbn [log In verdict_entry].
      intuition discriminate.
    + unfold unescalated in *. cbn [log In verdict_entry].
      intuition discriminate.
    + left. split; [reflexivity |].
      destruct (classify_PARAM_FAIL _ _ Hs) as [-> ->].
      cbn [log verdict_entry]. eauto.
  - right. cbn [log]. eauto.
Qed.

Lemma class_turn_ends (self : Self T) (c : Z) w :
  unescalated w ->
  match class_turn self (fun c => _instruction_fuzzer self c emit) c w with
  | (Ok _, w') => unescalated w'
  | (Raise e, w') => stopped e w'
  end.
Proof.
  intros Hw. unfold class_turn, bind. rewrite class_probe_log.
  assert (Hsweep : forall w1, unescalated w1 ->
             match _instruction_fuzzer self c emit w1 with
             | (Ok _, w') => unescalated w'
             | (Raise e, w') => stopped e w'
             end).
  { intros w1 H1. rewrite instruction_fuzzer_turns.
    apply for_each_ends; [| exact H1].
    intros i w0 _. apply instruction_turn_ends. }
  destruct (transmit T (cardservice self) [c; 0; 0; 0] (reader w))
    as [[[[response sw1] sw2] | e] rd'].
  - assert (H1 : unescalated
                   (World rd' (Returned response sw1 sw2
                                 :: Send [c; 0; 0; 0] :: log w) (out w))).
    { unfold unescalated in *. cbn [log In]. intuition discriminate. }
    destruct (negb _); [now apply Hsweep | exact H1].
  - assert (H1 : unescalated
                   (World rd' (match e with
                               | SWException _ => GotSWException e
                               | _ => WentWrong e
                               end :: Send [c; 0; 0; 0] :: log w) (out w))).
    { unfold unescalated in *. cbn [log In].
      destruct e; intuition discriminate. }
    destruct (negb _); [now apply Hsweep | exact H1].
Qed.

Lemma fuzz_ends (self : Self T) w :
  unescalated w ->
  match fuzz self emit w with
  | (Ok _, w') => unescalated w'
  | (Raise e, w') => stopped e w'
  end.
Proof.
  intros Hw. unfold fuzz. rewrite class_fuzzer_turns.
  apply for_each_ends; [| exact Hw].
  intros c w0 _. apply class_turn_ends.
Qed.
End Endings.

(** X6.  How [fuzz] ends, on any reader, from an empty log.  A run that
    returns has no verdict of parameter failure in its log.  A run that
    raises ends in one of two ways: with AttributeError on [param_fuzzer],
    the newest entries of the log being the verdict of parameter failure,
    the answer (0x6a, 0x86) and its command; or with the newest entry being
    a command that got no answer.  Either way no earlier entry is a verdict
    of parameter failure: the first one ends the run. *)
Theorem fuzz_ends_at_first_escalation :
  forall (T : CardTransceiver) (self : Self T) (rd : Reader T),
    let run := fuzz self emit (start rd) in
    match fst run with
    | Ok _ => ~ In PartialSucces (log (snd run))
    | Raise e =>
        (e = AttributeError "param_fuzzer"
         /\ exists response apdu l,
              log (snd run)
              = PartialSucces :: Returned response 0x6a 0x86 :: Send apdu :: l
              /\ ~ In PartialSucces l)
        \/ (exists apdu l,
               log (snd run) = Send apdu :: l /\ ~ In PartialSucces l)
    end.
Proof.
  intros T self rd run.
  pose proof (fuzz_ends self (start rd)) as H. fold run in H.
  destruct run as [[[] | e] w']; cbn [fst snd]; apply H; intros [].
Qed.

(** ** The trail in the log, and the number of transmissions *)

Section Trail.
Context {T : CardTransceiver}.
Implicit Type w : world T command.

Lemma trail_class_probe (self : Self T) (c : Z) :
  keeps trail (class_probe self c).
Proof.
  intros w Hw. rewrite class_probe_log. unfold trail in *.
  destruct (transmit T (cardservice self) [c; 0; 0; 0] (reader w))
    as [[[[response sw1] sw2] | e] rd']; cbn [snd log well_kept].
  - repeat split; eauto.
  - destruct e; repeat split; eauto; discriminate.
Qed.

Lemma trail_probe (rd : Reader T) (apdu : list Z) (response : list Z)
      (sw1 sw2 : Z) (l : list entry) (o : list command) :
  List.length apdu = 4%nat ->
  well_kept l ->
  trail (World rd (verdict_entry (classify sw1 sw2)
                     :: Returned response sw1 sw2 :: Send apdu :: l) o).
Proof.
  intros Ha Hl. unfold trail. cbn [log].
  destruct (classify sw1 sw2) eqn:E; cbn [verdict_entry well_kept];
    (split; [split; [split; [exact Hl | exact Ha] | eauto] |]);
    exists response, sw1, sw2, (Send apdu :: l); now rewrite E.
Qed.

Lemma trail_instruction_turn (self : Self T) (c i : Z) :
  keeps trail (instruction_turn self c emit i).
Proof.
  intros w Hw. destruct (mem i BAD_INSTRUCTIONS) eqn:Hi.
  { unfold instruction_turn. rewrite Hi. exact Hw. }
  rewrite instruction_turn_run by exact Hi.
  destruct (transmit T (cardservice self) [c; i; 0; 0] (reader w))
    as [[[[response sw1] sw2] | e] rd'].
  - pose proof (fun o => trail_probe rd' [c; i; 0; 0] response sw1 sw2
                           (log w) o eq_refl Hw) as H.
    cbn zeta. destruct (classify sw1 sw2); cbn [snd emit]; apply H.
  - unfold trail in *. cbn [snd log well_kept]. auto.
Qed.

Lemma trail_fuzz (self : Self T) : keeps trail (fuzz self emit).
Proof.
  unfold fuzz. rewrite class_fuzzer_turns. apply keeps_for_each.
  intros c _. unfold class_turn.
  apply keeps_bind; [apply trail_class_probe |].
  intros sw. destruct (negb _); [| apply keeps_ret].
  rewrite instruction_fuzzer_turns. apply keeps_for_each.
  intros i _. apply trail_instruction_turn.
Qed.

Lemma trail_param_fuzzer (self : Self T) (c i : Z) :
  keeps trail (_param_fuzzer self c i emit).
Proof.
  unfold _param_fuzzer. apply keeps_for_each. intros p1 _.
  apply keeps_for_each. intros p2 _ w Hw. rewrite param_turn_run.
  destruct (transmit T (cardservice self) [c; i; p1; p2] (reader w))
    as [[[[response sw1] sw2] | e] rd'].
  - pose proof (fun o => trail_probe rd' [c; i; p1; p2] response sw1 sw2
                           (log w) o eq_refl Hw) as H.
    cbn zeta. destruct (classify sw1 sw2); cbn [snd]; apply H.
  - unfold trail in *. cbn [snd log well_kept]. auto.
Qed.
End Trail.

(** X8.  The log of a run reads as a trail of exchanges, on any reader.
    In the log of [fuzz], of [main] and of a parameter sweep, from an empty
    log: an answer stands right after the command it answers; the note of
    an exception stands right after the command whose transmission raised,
    as info for an SWException and as a warning for any other; and a
    verdict stands right after an answer and is the classification of the
    status pair of that answer. *)
Theorem log_is_a_trail :
  forall (T : CardTransceiver) (self : Self T) (rd : Reader T),
    well_kept (log (snd (fuzz self emit (start rd))))
    /\ well_kept (log (snd (main (start rd))))
    /\ (forall c i : Z,
           well_kept (log (snd (_param_fuzzer self c i emit (start rd))))).
Proof.
  intros T self rd. split; [| split].
  - apply (trail_fuzz self (start rd)). exact I.
  - unfold main, bind. rewrite init_run. cbn [start reader log out].
    destruct (basicConfig T "smart_fuzzer.log" rd) as [[[] | e] rd0];
      [| exact I].
    destruct (waitforcard T 30 rd0) as [[svc | e] rd1]; [| exact I].
    destruct (connect T svc rd1) as [[[] | e] rd2]; [| exact I].
    apply (trail_fuzz (Fuzzer 30 svc) (World rd2 [] [])). exact I.
  - intros c i. apply (trail_param_fuzzer self c i (start rd)). exact I.
Qed.

(** ** The number of transmissions *)

Lemma fuzz_sends_bound {T : CardTransceiver} (self : Self T)
      (w : world T command) :
  Z.of_nat (List.length (sends (log (snd (fuzz self emit w)))))
  <= Z.of_nat (List.length (sends (log w))) + 256 * 255.
Proof.
  unfold fuzz. rewrite class_fuzzer_turns.
  set (base := Z.of_nat (List.length (sends (log w)))).
  pose proof (for_each_counted
                (fun c w' =>
                   Z.of_nat (List.length (sends (log w'))) <= base + c * 255)
                (class_turn self (fun c => _instruction_fuzzer self c emit))
                256 0) as L.
  cbn beta in L. fold (range 256) in L. apply L; [| intros; lia | lia].
  clear L. intros c w0 _ H0. unfold class_turn, bind.
  rewrite class_probe_log.
  assert (Hsweep : forall w1 : world T command,
             sends (log w1) = sends (log w0) ++ [[c; 0; 0; 0]] ->
             forall b : bool,
               Z.of_nat (List.length (sends (log (snd
                 ((if b then _instruction_fuzzer self c emit
                   else ret tt) w1)))))
               <= base + (c + 1) * 255).
  { intros w1 E b.
    assert (H1 : Z.of_nat (List.length (sends (log w1)))
                 <= base + c * 255 + 1)
      by (rewrite E, length_app; cbn [List.length]; lia).
    destruct b; [| cbn [ret snd]; lia].
    destruct (instruction_fuzzer_order self c w1)
      as (done & rest & Ep & Es & _).
    rewrite Es, length_app.
    assert (Hd : (List.length done <= 254)%nat).
    { change 254%nat with (List.length (instruction_probes c)).
      rewrite Ep, length_app. lia. }
    lia. }
  destruct (transmit T (cardservice self) [c; 0; 0; 0] (reader w0))
    as [[[[response sw1] sw2] | e] rd']; apply Hsweep; [reflexivity |].
  destruct e; reflexivity.
Qed.

(** X7.  The cost of a run, on any reader.  [fuzz], and so [main],
    transmits at most 256 * 255 = 65,280 commands: one class probe for
    each class and at most 254 instruction probes for each class. *)
Theorem fuzz_transmits_at_most :
  forall (T : CardTransceiver) (self : Self T) (rd : Reader T),
    (List.length (sends (log (snd (fuzz self emit (start rd)))))
     <= 256 * 255)%nat
    /\ (List.length (sends (log (snd (main (start rd))))) <= 256 * 255)%nat.
Proof.
  intros T self rd. split.
  - pose proof (fuzz_sends_bound self (start rd)) as H.
    cbn [start log sends List.length] in H.
    apply Nat2Z.inj_le. etransitivity; [exact H | reflexivity].
  - unfold main, bind. rewrite init_run. cbn [start reader log out].
    destruct (basicConfig T "smart_fuzzer.log" rd) as [[[] | e] rd0];
      [| cbn [snd log sends List.length]; apply Nat.le_0_l].
    destruct (waitforcard T 30 rd0) as [[svc | e] rd1];
      [| cbn [snd log sends List.length]; apply Nat.le_0_l].
    destruct (connect T svc rd1) as [[[] | e] rd2];
      [| cbn [snd log sends List.length]; apply Nat.le_0_l].
    pose proof (fuzz_sends_bound (Fuzzer 30 svc) (World rd2 [] [])) as H.
    cbn [log sends List.length] in H.
    apply Nat2Z.inj_le. etransitivity; [exact H | reflexivity].
Qed.

(** ** Construction *)

(** A log file in a directory that does not exist, in the environment that
    keeps a journal of its calls: the constructor raises the error of
    opening the file, and the journal holds that one call: the reader was
    not asked for a card. *)
Example unopened_log_stops_construction :
  __init__ (T := journal) (Y := command) 30 "/nonexistent_dir/x.log"
           (start (T := journal) (@nil string))
  = (Raise (OSError "No such file or directory"),
     World (T := journal) ["basicConfig"] [] []).
Proof. reflexivity. Qed.


(** ** A run on a card without state *)

(** A loop whose turns all return: what it yields and what it transmits
    are the turns' yields and transmissions, one after the other. *)
Lemma for_each_collects {T : CardTransceiver} {Y : Type}
      (f : Z -> list Y) (g : Z -> list (list Z))
      (xs : list Z) (body : Z -> M T Y unit) :
  (forall x w,
      fst (body x w) = Ok tt
      /\ out (snd (body x w)) = rev (f x) ++ out w
      /\ sends (log (snd (body x w))) = sends (log w) ++ g x) ->
  forall w,
    fst (for_each xs body w) = Ok tt
    /\ out (snd (for_each xs body w)) = rev (flat_map f xs) ++ out w
    /\ sends (log (snd (for_each xs body w)))
       = sends (log w) ++ flat_map g xs.
Proof.
  intros Hb. induction xs as [| x xs IH]; intros w;
    cbn [for_each flat_map rev].
  - cbn. now rewrite app_nil_r.
  - destruct (Hb x w) as (H1 & H2 & H3). unfold bind.
    destruct (body x w) as [[[] | e] w1]; cbn [fst snd] in *;
      [| discriminate].
    destruct (IH w1) as (I1 & I2 & I3).
    split; [exact I1 |]. split.
    + now rewrite I2, H2, rev_app_distr, app_assoc.
    + now rewrite I3, H3, app_assoc.
Qed.

Section PlainCard.
Variable answer : list Z -> res (list Z * Z * Z).
Hypothesis answer_plain : plain answer.
Variable self : Self (card_of answer).
Implicit Type w : world (card_of answer) command.

Lemma plain_instruction_turn (c i : Z) w :
  supported answer c = true ->
  let w' := snd (instruction_turn self c emit i w) in
  fst (instruction_turn self c emit i w) = Ok tt
  /\ out w'
     = rev (if mem i BAD_INSTRUCTIONS then []
            else if accepted answer c i then [(c, i, 0, 0)] else [])
       ++ out w
  /\ sends (log w')
     = sends (log w)
       ++ (if mem i BAD_INSTRUCTIONS then [] else [[c; i; 0; 0]]).
Proof.
  intros Hc. destruct (mem i BAD_INSTRUCTIONS) eqn:Hi.
  { unfold instruction_turn. rewrite Hi. cbn. now rewrite app_nil_r. }
  rewrite instruction_turn_run by exact Hi.
  specialize (answer_plain c i Hc Hi). unfold accepted.
  cbn [transmit card_of].
  destruct (answer [c; i; 0; 0]) as [[[response sw1] sw2] | e];
    [| contradiction].
  cbn zeta. destruct (classify sw1 sw2); cbn; auto. contradiction.
Qed.

Lemma plain_class_turn (c : Z) w :
  let run := class_turn self (fun c => _instruction_fuzzer self c emit) c w in
  fst run = Ok tt
  /\ out (snd run)
     = rev (if supported answer c
            then flat_map (fun i =>
                   if mem i BAD_INSTRUCTIONS then []
                   else if accepted answer c i then [(c, i, 0, 0)] else [])
                 (range 256)
            else [])
       ++ out w
  /\ sends (log (snd run))
     = sends (log w)
       ++ [c; 0; 0; 0]
          :: (if supported answer c then instruction_probes c else []).
Proof.
  unfold class_turn, bind. rewrite class_probe_log.
  unfold supported, mem_pair, UNSUPPORTED_RESP. cbn [transmit card_of existsb].
  assert (Hsweep : forall w1,
             supported answer c = true ->
             fst (_instruction_fuzzer self c emit w1) = Ok tt
             /\ out (snd (_instruction_fuzzer self c emit w1))
                = rev (flat_map (fun i =>
                         if mem i BAD_INSTRUCTIONS then []
                         else if accepted answer c i then [(c, i, 0, 0)]
                              else [])
                       (range 256)) ++ out w1
             /\ sends (log (snd (_instruction_fuzzer self c emit w1)))
                = sends (log w1) ++ instruction_probes c).
  { intros w1 Hc. rewrite instruction_fuzzer_turns.
    apply for_each_collects. intros i w0.
    now apply plain_instruction_turn. }
  destruct (answer [c; 0; 0; 0]) as [[[response sw1] sw2] | e] eqn:E.
  - rewrite orb_false_r.
    destruct (negb (pair_eqb (sw1, sw2) (0x6E, 0x00))) eqn:Hs.
    + destruct (Hsweep
                  (World (reader w)
                         (Returned response sw1 sw2
                            :: Send [c; 0; 0; 0] :: log w) (out w)))
        as (H1 & H2 & H3).
      { unfold supported. now rewrite E. }
      split; [exact H1 |]. split; [exact H2 |].
      rewrite H3. cbn [log sends]. now rewrite <- app_assoc.
    + cbn. auto.
  - change (negb (pair_eqb (0x6E, 0x00) (0x6E, 0x00) || false)) with false.
    cbn iota. destruct e; cbn; auto.
Qed.

Lemma plain_fuzz :
  let run := fuzz self emit (start (T := card_of answer) tt) in
  fst run = Ok tt
  /\ rev (out (snd run)) = discoveries answer
  /\ sends (log (snd run)) = traffic answer.
Proof.
  intros run.
  destruct (for_each_collects (Y := command)
              (fun c =>
                 if supported answer c
                 then flat_map (fun i =>
                        if mem i BAD_INSTRUCTIONS then []
                        else if accepted answer c i then [(c, i, 0, 0)]
                             else [])
                      (range 256)
                 else [])
              (fun c =>
                 [c; 0; 0; 0]
                   :: (if supported answer c then instruction_probes c
                       else []))
              (range 256)
              (class_turn self (fun c => _instruction_fuzzer self c emit))
              (fun c w => plain_class_turn c w)
              (start (T := card_of answer) tt))
    as (H1 & H2 & H3).
  assert (E : run
              = for_each (range 256)
                  (class_turn self (fun c => _instruction_fuzzer self c emit))
                  (start (T := card_of answer) tt)) by reflexivity.
  clearbody run. subst run. split; [exact H1 |]. split.
  - rewrite H2. cbn [start out]. now rewrite app_nil_r, rev_involutive.
  - rewrite H3. reflexivity.
Qed.
End PlainCard.

(** X10.  A whole run on a card without state that answers every
    instruction probe of its supported classes, and never with the status
    of a parameter failure.  [fuzz] returns; it yields, in the order of
    the sweep, exactly the zero-parameter commands (c, i, 0, 0) such that
    class c is supported, i is not blacklisted and the probe of (c, i) is
    answered with a success; and it transmits each class probe followed,
    when the class is supported, by the instruction probes of that class,
    before the probe of the next class. *)
Theorem fuzz_on_a_plain_card :
  forall (answer : list Z -> res (list Z * Z * Z))
         (self : Self (card_of answer)),
    plain answer ->
    let run := fuzz self emit (start (T := card_of answer) tt) in
    fst run = Ok tt
    /\ rev (out (snd run)) = discoveries answer
    /\ sends (log (snd run)) = traffic answer.
Proof. intros answer self H. exact (plain_fuzz answer H self). Qed.

Lemma fuzz_on_a_plain_card_witness :
  plain one_command
  /\ rev (out (snd (fuzz (Fuzzer (T := card_of one_command) 30 tt) emit
                         (start (T := card_of one_command) tt))))
     = [(0x80, 0x10, 0x00, 0x00)].
Proof.
  assert (H : plain one_command).
  { intros c i _ _. unfold one_command. cbn [nth].
    destruct (c =? 0x80); [destruct (i =? 0x10) |]; discriminate. }
  split; [exact H |].
  destruct (fuzz_on_a_plain_card one_command
              (Fuzzer (T := card_of one_command) 30 tt) H)
    as (_ & E & _).
  rewrite E. vm_compute. reflexivity.
Defined.
